(** * Clipboard Image Optimizer: the overlay, the settings panel and the
      optimization pipeline

    The repository's front end consists of three Vue single-file components:
    the progress overlay ([Overlay] below), the settings panel ([Settings])
    and an earlier settings panel kept at [src/App.vue] ([LegacySettings]).
    Each [<script setup>] block is embedded as state-passing functions over
    a record of its bindings and a record of the browser / Tauri runtime it
    talks to.  The back end (clipboard monitoring, re-encoding, revert) is
    not part of the sources; [Core] models it from its specification. *)

From Stdlib Require Import ZArith QArith Qround Qabs Lqa Lia.
From Stdlib.Strings Require Import Byte.
From stdpp Require Import gmap strings list fin_maps pretty.

Open Scope Z_scope.

(** ** JavaScript numbers, as far as the overlay uses them *)

Module Js.

(** [Number.MAX_SAFE_INTEGER]: up to it every integer is a number. *)
Definition MAX_SAFE_INTEGER : Z := 2 ^ 53 - 1.

(** [String(n)] / template interpolation of an integer-valued number. *)
Definition number_to_string (n : Z) : string := pretty n.

(** [s.padStart(w, "0")]. *)
Definition pad_zeros (w : nat) (s : string) : string :=
  String.concat "" (replicate (w - String.length s) "0") +:+ s.

(** The integer [n] that [Number.prototype.toFixed] picks for a
    non-negative [x] and [f] fraction digits: the one for which
    [n / 10^f - x] is closest to zero, the larger one on a tie. *)
Definition toFixed_int (x : Q) (f : nat) : Z :=
  Qfloor (x * inject_Z (10 ^ Z.of_nat f) + (1 # 2)).

(** The digits [toFixed] prints below [10^21], for [f > 0]: those of
    [toFixed_int x f] with a point before the last [f] of them. *)
Definition fixed_digits (x : Q) (f : nat) : string :=
  let n := toFixed_int x f in
  let p := 10 ^ Z.of_nat f in
  number_to_string (n / p) +:+ "." +:+ pad_zeros f (number_to_string (n mod p)).

(** The double nearest to a positive integer [v] below [2^1024]: [v] itself
    if it has at most 53 significant bits, otherwise [v] rounded to 53
    significant bits, to the even one on a tie. *)
Definition to_double (v : Z) : Z :=
  let sh := Z.log2 v + 1 - 53 in
  if sh <=? 0 then v
  else
    let q := Z.shiftr v sh in
    let rem := v - Z.shiftl q sh in
    let half := Z.shiftl 1 (sh - 1) in
    let q' := if (half <? rem) || ((rem =? half) && Z.odd q) then q + 1 else q in
    Z.shiftl q' sh.

(** The decimal number [s * 10^(n-k)] that [Number::toString] prints for an
    integer-valued double [v]: [k] digits [s], with [k] as small as possible
    such that the number reads back as [v]; of two such numbers the one
    closer to [v], and the one with the even [s] on a tie.  Seventeen digits
    always suffice. *)
Definition shortest_decimal (v : Z) : Z :=
  let n := Z.of_nat (String.length (number_to_string v)) in
  let pick (k : Z) : option Z :=
    let e := 10 ^ (n - k) in
    let lo := v / e * e in
    let hi := lo + e in
    match bool_decide (to_double lo = v), bool_decide (to_double hi = v) with
    | true, true =>
        Some (if v - lo <? hi - v then lo
              else if hi - v <? v - lo then hi
              else if Z.even (lo / e) then lo else hi)
    | true, false => Some lo
    | false, true => Some hi
    | false, false => None
    end in
  default v (head (omap pick (Z.of_nat <$> seq 1 17))).

(** A digit string without its trailing zeros. *)
Fixpoint strip_zeros (s : string) : string :=
  match s with
  | EmptyString => EmptyString
  | String a s' =>
      match strip_zeros s' with
      | EmptyString =>
          if bool_decide (String a EmptyString = "0") then EmptyString
          else String a EmptyString
      | t => String a t
      end
  end.

(** [String(v)] for an integer-valued double [v >= 10^21]: exponent
    notation, the first digit, a point if more digits follow, the other
    digits, "e+" and the exponent. *)
Definition to_exponential (v : Z) : string :=
  let ds := number_to_string (shortest_decimal v) in
  let e := number_to_string (Z.of_nat (String.length ds) - 1) in
  match strip_zeros ds with
  | String d EmptyString => String d EmptyString +:+ "e+" +:+ e
  | String d rest => String d EmptyString +:+ "." +:+ rest +:+ "e+" +:+ e
  | EmptyString => "0"
  end.

(** [x.toFixed(f)] for [x >= 0] and [f > 0]: from [10^21] on it is
    [String(x)], below it the digits of [fixed_digits].  [x] is the exact
    value of the double; for an integer [size] up to [MAX_SAFE_INTEGER],
    and for any double that is an integer, the quotients [size / 1024] and
    [size / (1024 * 1024)] are exact doubles (division by a power of two),
    so [inject_Z size / 1024] is that value. *)
Definition toFixed (x : Q) (f : nat) : string :=
  if Qle_bool (inject_Z (10 ^ 21)) x then to_exponential (Qfloor x)
  else fixed_digits x f.

(** The value of a character as a decimal digit. *)
Definition digit_value (a : Ascii.ascii) : option Z :=
  let n := Z.of_nat (Ascii.nat_of_ascii a) - 48 in
  if (0 <=? n) && (n <=? 9) then Some n else None.

(** The number that a string of decimal digits denotes, read from the left
    with [acc] the number read so far. *)
Fixpoint decimal_value_from (acc : Z) (s : string) : option Z :=
  match s with
  | EmptyString => Some acc
  | String a s' =>
      match digit_value a with
      | Some d => decimal_value_from (10 * acc + d) s'
      | None => None
      end
  end.

Definition decimal_value (s : string) : option Z :=
  match s with
  | EmptyString => None
  | _ => decimal_value_from 0 s
  end.

(** [s] is the decimal numeral of [n]: its digits denote [n] and it has no
    leading zero (it is "0" for zero). *)
Definition numeral (s : string) (n : Z) : Prop :=
  decimal_value s = Some n ∧
  match s with
  | String a (String _ _) => digit_value a ≠ Some 0
  | _ => True
  end.

End Js.

(** ** The progress overlay *)

Module Overlay.

Inductive ProgressState := loading | finished.

(** Events the back end emits to the overlay window. *)
Inductive Event :=
| OptimizationStart
| OptimizationComplete (original_size new_size : Z).

Definition event_name (e : Event) : string :=
  match e with
  | OptimizationStart => "optimization-start"
  | OptimizationComplete _ _ => "optimization-complete"
  end.

(** A pending [setTimeout]: its handle, the time it is due at, and the
    command its callback invokes (the only callback of the component is
    [() => invoke('hide_progress')]). *)
Record Timer := { handle : nat; due : Z; command : string }.

(** The browser and Tauri side: a millisecond clock, the pending timeouts
    in the order they were set, the next timer handle (handles are positive
    integers), the event names a listener is registered for, and the
    commands sent through [invoke] with the time they were sent at. *)
Record Runtime := {
  now : Z;
  timers : list Timer;
  nextHandle : nat;
  listeners : gset string;
  invoked : list (Z * string);
}.

(** How far the async [onMounted] hook has run. *)
Inductive MountPc := NotMounted | AwaitListenStart | AwaitListenComplete | MountDone.

(** The bindings of the script block.  An [UnlistenFn] is represented by the
    event name whose listener it removes. *)
Record Component := {
  state : ProgressState;
  originalSize : Z;
  newSize : Z;
  autoHideTimer : option nat;
  unlistenStart : option string;
  unlistenComplete : option string;
  pc : MountPc;
}.

Definition World : Type := Component * Runtime.

Definition initial : World :=
  ({| state := loading; originalSize := 0; newSize := 0; autoHideTimer := None;
      unlistenStart := None; unlistenComplete := None; pc := NotMounted |},
   {| now := 0; timers := []; nextHandle := 1; listeners := ∅; invoked := [] |}).

Definition formatSize (size : Z) : string :=
  if size <? 1024 then Js.number_to_string size +:+ " B"
  else if size <? 1024 * 1024 then Js.toFixed (inject_Z size / 1024) 1 +:+ " KB"
  else Js.toFixed (inject_Z size / inject_Z (1024 * 1024)) 2 +:+ " MB".

Definition statistics (c : Component) : string :=
  formatSize (originalSize c) +:+ " → " +:+ formatSize (newSize c).

(** The text nodes of the template.  The revert button of the finished
    branch is commented out in the template, so nothing else is rendered
    and no element carries a click handler. *)
Definition render (c : Component) : list string :=
  match state c with
  | loading => ["Optimizing image..."; "Please wait"]
  | finished => ["✓"; statistics c]
  end.

(** *** Runtime operations *)

Definition invoke (cmd : string) (r : Runtime) : Runtime :=
  {| now := now r; timers := timers r; nextHandle := nextHandle r;
     listeners := listeners r; invoked := invoked r ++ [(now r, cmd)] |}.

Definition setTimeout (cmd : string) (delay : Z) (r : Runtime) : nat * Runtime :=
  (nextHandle r,
   {| now := now r;
      timers := timers r ++ [{| handle := nextHandle r; due := now r + delay; command := cmd |}];
      nextHandle := S (nextHandle r);
      listeners := listeners r; invoked := invoked r |}).

Definition clearTimeout (h : nat) (r : Runtime) : Runtime :=
  {| now := now r;
     timers := filter (λ t, handle t ≠ h) (timers r);
     nextHandle := nextHandle r; listeners := listeners r; invoked := invoked r |}.

Definition listen (name : string) (r : Runtime) : Runtime :=
  {| now := now r; timers := timers r; nextHandle := nextHandle r;
     listeners := {[name]} ∪ listeners r; invoked := invoked r |}.

Definition unlisten (name : string) (r : Runtime) : Runtime :=
  {| now := now r; timers := timers r; nextHandle := nextHandle r;
     listeners := listeners r ∖ {[name]}; invoked := invoked r |}.

(** One millisecond passes; the timeouts that are due run their callback. *)
Definition tick (r : Runtime) : Runtime :=
  let t := now r + 1 in
  {| now := t;
     timers := filter (λ tm, t < due tm) (timers r);
     nextHandle := nextHandle r; listeners := listeners r;
     invoked := invoked r ++ ((λ tm, (t, command tm)) <$> filter (λ tm, ¬ t < due tm) (timers r)) |}.

(** *** The script block *)

Definition set_autoHideTimer (v : option nat) (c : Component) : Component :=
  {| state := state c; originalSize := originalSize c; newSize := newSize c;
     autoHideTimer := v; unlistenStart := unlistenStart c;
     unlistenComplete := unlistenComplete c; pc := pc c |}.

(** [if (autoHideTimer)]: [null] and [0] are falsy. *)
Definition truthy (v : option nat) : bool :=
  match v with
  | Some h => negb (h =? 0)%nat
  | None => false
  end.

Definition clearAutoHideTimer (w : World) : World :=
  let '(c, r) := w in
  match autoHideTimer c with
  | Some h => if truthy (Some h) then (set_autoHideTimer None c, clearTimeout h r) else w
  | None => w
  end.

Definition startAutoHideTimer (w : World) : World :=
  let '(c, r) := clearAutoHideTimer w in
  let '(h, r') := setTimeout "hide_progress" 5000 r in
  (set_autoHideTimer (Some h) c, r').

(** The listener registered for [optimization-start]. *)
Definition onStart (w : World) : World :=
  let '(c, r) := w in
  clearAutoHideTimer
    ({| state := loading; originalSize := originalSize c; newSize := newSize c;
        autoHideTimer := autoHideTimer c; unlistenStart := unlistenStart c;
        unlistenComplete := unlistenComplete c; pc := pc c |}, r).

(** The listener registered for [optimization-complete] (its [console.log]
    is not modelled). *)
Definition onComplete (original_size new_size : Z) (w : World) : World :=
  let '(c, r) := w in
  startAutoHideTimer
    ({| state := finished; originalSize := original_size; newSize := new_size;
        autoHideTimer := autoHideTimer c; unlistenStart := unlistenStart c;
        unlistenComplete := unlistenComplete c; pc := pc c |}, r).

(** [onMounted] up to its first [await]. *)
Definition onMounted (w : World) : World :=
  let '(c, r) := w in
  match pc c with
  | NotMounted =>
      ({| state := state c; originalSize := originalSize c; newSize := newSize c;
          autoHideTimer := autoHideTimer c; unlistenStart := unlistenStart c;
          unlistenComplete := unlistenComplete c; pc := AwaitListenStart |}, r)
  | _ => w
  end.

(** A pending [await listen(...)] resolves: the listener is registered, its
    [UnlistenFn] is stored, and the hook runs on to its next [await]. *)
Definition resume (w : World) : World :=
  let '(c, r) := w in
  match pc c with
  | AwaitListenStart =>
      ({| state := state c; originalSize := originalSize c; newSize := newSize c;
          autoHideTimer := autoHideTimer c;
          unlistenStart := Some "optimization-start";
          unlistenComplete := unlistenComplete c; pc := AwaitListenComplete |},
       listen "optimization-start" r)
  | AwaitListenComplete =>
      ({| state := state c; originalSize := originalSize c; newSize := newSize c;
          autoHideTimer := autoHideTimer c; unlistenStart := unlistenStart c;
          unlistenComplete := Some "optimization-complete"; pc := MountDone |},
       listen "optimization-complete" r)
  | _ => w
  end.

(** [f?.()] for an [UnlistenFn] binding. *)
Definition call_unlisten (f : option string) (r : Runtime) : Runtime :=
  match f with
  | Some name => unlisten name r
  | None => r
  end.

Definition onUnmounted (w : World) : World :=
  let '(c, r) := clearAutoHideTimer w in
  (c, call_unlisten (unlistenComplete c) (call_unlisten (unlistenStart c) r)).

(** The back end emits an event: the listener runs if it is registered. *)
Definition dispatch (e : Event) (w : World) : World :=
  if bool_decide (event_name e ∈ listeners w.2) then
    match e with
    | OptimizationStart => onStart w
    | OptimizationComplete o n => onComplete o n w
    end
  else w.

(** What can happen to the overlay window.  [UserClick] is a click anywhere
    in the window: the template binds no handler. *)
Inductive Input :=
| Mounted
| Resolved
| Unmounted
| Emit (e : Event)
| Tick
| UserClick.

Definition step (w : World) (i : Input) : World :=
  match i with
  | Mounted => onMounted w
  | Resolved => resume w
  | Unmounted => onUnmounted w
  | Emit e => dispatch e w
  | Tick => (w.1, tick w.2)
  | UserClick => w
  end.

Definition run (inputs : list Input) (w : World) : World := fold_left step inputs w.

(** [k] milliseconds pass with nothing else happening. *)
Definition wait (k : nat) (w : World) : World := run (replicate k Tick) w.

Arguments wait : simpl never.

(** The commands sent so far, without their time stamps. *)
Definition commands (w : World) : list string := snd <$> invoked w.2.

(** The runtime with every pending timeout cancelled. *)
Definition no_timers (r : Runtime) : Runtime :=
  {| now := now r; timers := []; nextHandle := nextHandle r;
     listeners := listeners r; invoked := invoked r |}.

(** The runtime [k] milliseconds later, when no timeout came due. *)
Definition later (k : Z) (r : Runtime) : Runtime :=
  {| now := now r + k; timers := timers r; nextHandle := nextHandle r;
     listeners := listeners r; invoked := invoked r |}.

(** The bookkeeping that every reachable state of the overlay satisfies:
    timer handles are positive, the only timeout that can be pending is the
    one [autoHideTimer] holds, its callback sends [hide_progress], and
    nothing else has been sent. *)
Definition tracked (w : World) : Prop :=
  (0 < nextHandle w.2)%nat ∧
  (∀ h, autoHideTimer w.1 = Some h → h ≠ 0%nat) ∧
  (timers w.2 = [] ∨
   ∃ h d, timers w.2 = [{| handle := h; due := d; command := "hide_progress" |}] ∧
          autoHideTimer w.1 = Some h) ∧
  (∀ cmd, cmd ∈ commands w → cmd = "hide_progress").

(** The optimization-complete events among the inputs. *)
Definition is_completion (i : Input) : bool :=
  match i with
  | Emit (OptimizationComplete _ _) => true
  | _ => false
  end.

Definition completions (inputs : list Input) : nat :=
  length (List.filter is_completion inputs).

(** The component after [onUnmounted] has run on a fully mounted overlay: no
    timeout is pending and neither listener is registered any more. *)
Definition unmounted (w : World) : Prop :=
  pc w.1 = MountDone ∧ timers w.2 = [] ∧
  ("optimization-start" ∉ listeners w.2) ∧ ("optimization-complete" ∉ listeners w.2).

(** The [UnlistenFn] bindings follow the mount hook: each is set once its
    [listen] has resolved. *)
Definition hooked (w : World) : Prop :=
  (pc w.1 = AwaitListenComplete → unlistenStart w.1 = Some "optimization-start") ∧
  (pc w.1 = MountDone →
   unlistenStart w.1 = Some "optimization-start" ∧
   unlistenComplete w.1 = Some "optimization-complete").

End Overlay.


(** ** The settings panel *)

Module Settings.

(** What the panel does to the outside, in order: commands sent to the back
    end through [invoke] (with the [enabled] argument when there is one),
    writes to [localStorage], [console.error] calls and writes of the
    document's [data-theme] attribute. *)
Inductive Effect :=
| Invoke (cmd : string) (enabled : option bool)
| SetItem (key value : string)
| ConsoleError (msg : string)
| SetAttribute (name value : string).

(** The refs of the script block and the browser state they act on.  The
    version display and the update check of the newer panel touch none of
    them and are left out. *)
Record Panel := {
  autoStart : bool;
  theme : string;
  localStorage : gmap string string;
  prefersDark : bool;
  themeListener : bool;
  trace : list Effect;
}.

Definition initial (storage : gmap string string) (dark : bool) : Panel :=
  {| autoStart := false; theme := "auto"; localStorage := storage;
     prefersDark := dark; themeListener := false; trace := [] |}.

Definition emit (e : Effect) (p : Panel) : Panel :=
  {| autoStart := autoStart p; theme := theme p; localStorage := localStorage p;
     prefersDark := prefersDark p; themeListener := themeListener p;
     trace := trace p ++ [e] |}.

Definition setItem (key value : string) (p : Panel) : Panel :=
  emit (SetItem key value)
    {| autoStart := autoStart p; theme := theme p;
       localStorage := <[key := value]> (localStorage p);
       prefersDark := prefersDark p; themeListener := themeListener p;
       trace := trace p |}.

(** [String(b)] for a boolean. *)
Definition String_of_bool (b : bool) : string := if b then "true" else "false".

Definition applyTheme (selectedTheme : string) (p : Panel) : Panel :=
  if bool_decide (selectedTheme = "auto") then
    emit (SetAttribute "data-theme" (if prefersDark p then "dark" else "light")) p
  else emit (SetAttribute "data-theme" selectedTheme) p.

(** The callback of [watch(theme, ...)]. *)
Definition onThemeChange (newTheme : string) (p : Panel) : Panel :=
  setItem "theme" newTheme (applyTheme newTheme p).

(** The callback of [watch(autoStart, ...)]; [ok] tells whether the
    [set_auto_start] command resolves ([true]) or rejects. *)
Definition onAutoStartChange (newValue : bool) (ok : bool) (p : Panel) : Panel :=
  let p1 := emit (Invoke "set_auto_start" (Some newValue)) p in
  if ok then setItem "autoStart" (String_of_bool newValue) p1
  else emit (ConsoleError "Failed to set auto-start:") p1.

(** An assignment to a watched ref: Vue runs the watcher only when the
    value has changed. *)
Definition assign_theme (v : string) (p : Panel) : Panel * bool :=
  ({| autoStart := autoStart p; theme := v; localStorage := localStorage p;
      prefersDark := prefersDark p; themeListener := themeListener p;
      trace := trace p |},
   bool_decide (v ≠ theme p)).

Definition assign_autoStart (v : bool) (p : Panel) : Panel * bool :=
  ({| autoStart := v; theme := theme p; localStorage := localStorage p;
      prefersDark := prefersDark p; themeListener := themeListener p;
      trace := trace p |},
   bool_decide (v ≠ autoStart p)).

(** A watcher callback is flushed once the running code yields. *)
Definition flush_theme (changed : bool) (p : Panel) : Panel :=
  if changed then onThemeChange (theme p) p else p.

Definition flush_autoStart (changed ok : bool) (p : Panel) : Panel :=
  if changed then onAutoStartChange (autoStart p) ok p else p.

Definition add_theme_listener (p : Panel) : Panel :=
  {| autoStart := autoStart p; theme := theme p; localStorage := localStorage p;
     prefersDark := prefersDark p; themeListener := true; trace := trace p |}.

(** [onMounted], run in one piece: the hook as it runs when nothing else
    happens while it is suspended at its two [await]s ([SettingsMount]
    below runs it await by await).  [reply] is what [get_auto_start]
    resolves to ([None] when it rejects); [ok] is the outcome of the
    [set_auto_start] the watcher sends when the assignment changes
    [autoStart]. *)
Definition onMounted (reply : option bool) (ok : bool) (p : Panel) : Panel :=
  let '(p1, changedTheme) :=
    match localStorage p !! "theme" with
    | Some savedTheme =>
        if bool_decide (savedTheme ≠ "") then assign_theme savedTheme p else (p, false)
    | None => (p, false)
    end in
  let p2 := applyTheme (theme p1) p1 in
  let p3 := emit (Invoke "get_auto_start" None) p2 in
  let p4 := flush_theme changedTheme p3 in
  let '(p5, changed) :=
    match reply with
    | Some b => assign_autoStart b p4
    | None => (emit (ConsoleError "Failed to get auto-start state:") p4, false)
    end in
  flush_autoStart changed ok (add_theme_listener p5).

Inductive Input :=
| Mount (reply : option bool) (ok : bool)
| ToggleAutoStart (ok : bool)
| SelectTheme (t : string)
| SystemThemeChange (dark : bool).

(** The checkbox bound with [v-model="autoStart"] is clicked. *)
Definition toggle (ok : bool) (p : Panel) : Panel :=
  let '(q, changed) := assign_autoStart (negb (autoStart p)) p in
  flush_autoStart changed ok q.

Definition select_theme (t : string) (p : Panel) : Panel :=
  let '(q, changed) := assign_theme t p in flush_theme changed q.

Definition system_theme_change (dark : bool) (p : Panel) : Panel :=
  let q := {| autoStart := autoStart p; theme := theme p; localStorage := localStorage p;
              prefersDark := dark; themeListener := themeListener p; trace := trace p |} in
  if themeListener q && bool_decide (theme q = "auto") then applyTheme "auto" q else q.

Definition step (p : Panel) (i : Input) : Panel :=
  match i with
  | Mount reply ok => onMounted reply ok p
  | ToggleAutoStart ok => toggle ok p
  | SelectTheme t => select_theme t p
  | SystemThemeChange dark => system_theme_change dark p
  end.

Definition run (inputs : list Input) (p : Panel) : Panel := fold_left step inputs p.

(** The commands among the effects of the panel, in order. *)
Definition is_invoke (e : Effect) : bool :=
  match e with
  | Invoke _ _ => true
  | _ => false
  end.

Definition invocations (p : Panel) : list Effect := List.filter is_invoke (trace p).

(** The value the effects have left in the document's [data-theme]
    attribute. *)
Definition data_theme (tr : list Effect) : option string :=
  fold_left (λ acc e,
               match e with
               | SetAttribute name v => if bool_decide (name = "data-theme") then Some v else acc
               | _ => acc
               end) tr None.

(** The theme the document should show: the selected one, or the system's
    when "auto" is selected. *)
Definition effective_theme (p : Panel) : string :=
  if bool_decide (theme p = "auto") then (if prefersDark p then "dark" else "light")
  else theme p.

(** The panel listens to the system preference and the attribute shows the
    effective theme. *)
Definition themed (p : Panel) : Prop :=
  themeListener p = true ∧ data_theme (trace p) = Some (effective_theme p).

(** An input the template can produce: its three theme buttons assign
    'light', 'dark' and 'auto'. *)
Definition from_template (i : Input) : Prop :=
  match i with
  | SelectTheme t => t = "light" ∨ t = "dark" ∨ t = "auto"
  | _ => True
  end.

(** The stored theme agrees with the selected one: a non-empty stored value
    is the selected theme, and with nothing (or the empty string) stored
    the selected theme is the default. *)
Definition theme_persisted (p : Panel) : Prop :=
  match localStorage p !! "theme" with
  | Some t => if bool_decide (t = "") then theme p = "auto" else theme p = t
  | None => theme p = "auto"
  end.

(** The mount hook in two parts: the part that restores and applies the
    theme, up to the flush of the theme watcher, and the part that reads
    the auto-start state from the system. *)
Definition mount_theme (p : Panel) : Panel :=
  let '(p1, changedTheme) :=
    match localStorage p !! "theme" with
    | Some savedTheme =>
        if bool_decide (savedTheme ≠ "") then assign_theme savedTheme p else (p, false)
    | None => (p, false)
    end in
  flush_theme changedTheme (emit (Invoke "get_auto_start" None) (applyTheme (theme p1) p1)).

Definition mount_autoStart (reply : option bool) (ok : bool) (p4 : Panel) : Panel :=
  let '(p5, changed) :=
    match reply with
    | Some b => assign_autoStart b p4
    | None => (emit (ConsoleError "Failed to get auto-start state:") p4, false)
    end in
  flush_autoStart changed ok (add_theme_listener p5).

(** The theme the mount hook restores from what is stored. *)
Definition restored_theme (p : Panel) : string :=
  match localStorage p !! "theme" with
  | Some savedTheme => if bool_decide (savedTheme ≠ "") then savedTheme else theme p
  | None => theme p
  end.

(** Two panels that differ at most in what [localStorage] holds under
    "autoStart". *)
Definition same_but_autoStart (p q : Panel) : Prop :=
  autoStart p = autoStart q ∧ theme p = theme q ∧ prefersDark p = prefersDark q ∧
  themeListener p = themeListener q ∧ trace p = trace q ∧
  ∀ k, k ≠ "autoStart" → localStorage p !! k = localStorage q !! k.

End Settings.

(** ** The mount hook of the settings panel, await by await

    The mount hook of [part_001] is [async].  It is suspended at
    [await getVersion()] and again at [await invoke("get_auto_start")], and
    the panel, which is on screen by then, reacts to the user and to the
    system in between.  Here the hook runs in its parts: up to the first
    [await]; from there to the second, which restores and applies the
    theme ([Settings.mount_theme]); and from there to its end, which
    assigns the auto-start state and only then registers the listener for
    the system preference ([Settings.mount_autoStart]). *)

Module SettingsMount.
Import Settings.

Inductive MountPc := NotMounted | AwaitGetVersion | AwaitGetAutoStart | MountDone.

Definition World : Type := Panel * MountPc.

Definition initial (storage : gmap string string) (dark : bool) : World :=
  (Settings.initial storage dark, NotMounted).

(** What can happen to the panel.  The checkbox and the theme buttons exist
    once the panel is mounted; the system preference can change at any
    time. *)
Inductive Input :=
| Mounted
| VersionSettled
| AutoStartSettled (reply : option bool) (ok : bool)
| ToggleAutoStart (ok : bool)
| SelectTheme (t : string)
| SystemThemeChange (dark : bool).

Definition step (w : World) (i : Input) : World :=
  let '(p, pc) := w in
  match i with
  | Mounted =>
      match pc with
      | NotMounted => (p, AwaitGetVersion)
      | _ => w
      end
  | VersionSettled =>
      match pc with
      | AwaitGetVersion => (mount_theme p, AwaitGetAutoStart)
      | _ => w
      end
  | AutoStartSettled reply ok =>
      match pc with
      | AwaitGetAutoStart => (mount_autoStart reply ok p, MountDone)
      | _ => w
      end
  | ToggleAutoStart ok =>
      match pc with
      | NotMounted => w
      | _ => (toggle ok p, pc)
      end
  | SelectTheme t =>
      match pc with
      | NotMounted => w
      | _ => (select_theme t p, pc)
      end
  | SystemThemeChange dark => (system_theme_change dark p, pc)
  end.

Definition run (inputs : list Input) (w : World) : World := fold_left step inputs w.

(** The system preference changes while the hook waits for
    [get_auto_start]: after its [applyTheme], before its
    [addEventListener]. *)
Definition in_the_gap (w : World) (i : Input) : bool :=
  match i, w.2 with
  | SystemThemeChange _, AwaitGetAutoStart => true
  | _, _ => false
  end.

(** No input of [inputs], run from [w], falls into that gap. *)
Fixpoint undisturbed (inputs : list Input) (w : World) : bool :=
  match inputs with
  | [] => true
  | i :: rest => negb (in_the_gap w i) && undisturbed rest (step w i)
  end.

(** What the stages of the hook have established: the listener is
    registered at the end only; from the second [await] on the attribute
    shows the effective theme. *)
Definition staged (w : World) : Prop :=
  match w.2 with
  | MountDone => themed w.1
  | AwaitGetAutoStart =>
      themeListener w.1 = false ∧ data_theme (trace w.1) = Some (effective_theme w.1)
  | _ => themeListener w.1 = false
  end.

End SettingsMount.

(** ** The settings panel of [src/App.vue]

    The same panel without the update section.  Its theme code is the same
    as in [Settings]; its auto-start watcher and its mount hook differ. *)

Module LegacySettings.
Import Settings.

(** The callback of [watch(autoStart, ...)]: the [invoke] is a comment
    under a TODO. *)
Definition onAutoStartChange (newValue : bool) (p : Panel) : Panel :=
  setItem "autoStart" (String_of_bool newValue) p.

Definition flush_autoStart (changed : bool) (p : Panel) : Panel :=
  if changed then onAutoStartChange (autoStart p) p else p.

Definition onMounted (p : Panel) : Panel :=
  let '(p1, changedTheme) :=
    match localStorage p !! "theme" with
    | Some savedTheme =>
        if bool_decide (savedTheme ≠ "") then assign_theme savedTheme p else (p, false)
    | None => (p, false)
    end in
  let p2 := applyTheme (theme p1) p1 in
  let '(p3, changed) :=
    match localStorage p2 !! "autoStart" with
    | Some savedAutoStart => assign_autoStart (bool_decide (savedAutoStart = "true")) p2
    | None => (p2, false)
    end in
  let p4 := add_theme_listener p3 in
  flush_autoStart changed (flush_theme changedTheme p4).

Inductive Input :=
| Mount
| ToggleAutoStart
| SelectTheme (t : string)
| SystemThemeChange (dark : bool).

Definition toggle (p : Panel) : Panel :=
  let '(q, changed) := assign_autoStart (negb (autoStart p)) p in
  flush_autoStart changed q.

Definition step (p : Panel) (i : Input) : Panel :=
  match i with
  | Mount => onMounted p
  | ToggleAutoStart => toggle p
  | SelectTheme t => select_theme t p
  | SystemThemeChange dark => system_theme_change dark p
  end.

Definition run (inputs : list Input) (p : Panel) : Panel := fold_left step inputs p.

(** The stored auto-start flag agrees with the toggle: with nothing stored
    the toggle is off, otherwise it is on exactly when "true" is stored. *)
Definition autoStart_persisted (p : Panel) : Prop :=
  match localStorage p !! "autoStart" with
  | Some v => autoStart p = bool_decide (v = "true")
  | None => autoStart p = false
  end.

End LegacySettings.

(** ** The update controls of the settings panel

    The part of [part_001] that checks for updates and installs them: the
    refs [currentVersion], [updateStatus], [availableUpdate], [updateError]
    and [downloadProgress], the binding [updateCheckInterval], the functions
    [checkForUpdates] and [downloadAndInstall], the update part of the two
    lifecycle hooks and the two buttons of the template.  The theme and the
    auto-start toggle (module [Settings]) do not read or write any of
    these. *)

Module Updater.

Inductive UpdateStatus := idle | checking | up_to_date | available | downloading | error.

#[global] Instance UpdateStatus_eq_dec : EqDecision UpdateStatus.
Proof. solve_decision. Defined.

(** The [Update] object of the updater plugin; the panel reads its
    [version]. *)
Record Update := { version : string }.

(** The events the plugin passes to the callback of [downloadAndInstall];
    [contentLength] is optional. *)
Inductive DownloadEvent :=
| Started (contentLength : option Z)
| Progress (chunkLength : Z)
| Finished.

(** Where the [async] mount hook stands: before it ran, at one of its two
    [await]s, or past the last statement. *)
Inductive MountPc := NotMounted | AwaitGetVersion | AwaitGetAutoStart | MountDone.

#[global] Instance MountPc_eq_dec : EqDecision MountPc.
Proof. solve_decision. Defined.

(** The refs and the [let] binding of the script block.  [downloadProgress]
    counts bytes: integers, on which the addition of Numbers is exact up to
    [Js.MAX_SAFE_INTEGER]. *)
Record Component := {
  currentVersion : string;
  updateStatus : UpdateStatus;
  availableUpdate : option Update;
  updateError : string;
  downloadProgress : Z;
  updateCheckInterval : option nat;
  pc : MountPc;
}.

(** The window around the component: the live intervals, the next handle
    [setInterval] returns, the [check()] and [downloadAndInstall()] promises
    that have not settled yet, the number of [check()] calls made so far,
    and whether the template is in the document. *)
Record Runtime := {
  intervals : list nat;
  nextHandle : nat;
  checks : nat;
  downloads : nat;
  checked : nat;
  rendered : bool;
}.

Definition World : Type := Component * Runtime.

Definition initial : World :=
  ({| currentVersion := ""; updateStatus := idle; availableUpdate := None;
      updateError := ""; downloadProgress := 0; updateCheckInterval := None;
      pc := NotMounted |},
   {| intervals := []; nextHandle := 1; checks := 0; downloads := 0; checked := 0;
      rendered := false |}).

(** *** Runtime operations *)

(** [check()] is called: one more promise is pending. *)
Definition check (r : Runtime) : Runtime :=
  {| intervals := intervals r; nextHandle := nextHandle r; checks := S (checks r);
     downloads := downloads r; checked := S (checked r); rendered := rendered r |}.

Definition settle_check (r : Runtime) : Runtime :=
  {| intervals := intervals r; nextHandle := nextHandle r; checks := pred (checks r);
     downloads := downloads r; checked := checked r; rendered := rendered r |}.

Definition start_download (r : Runtime) : Runtime :=
  {| intervals := intervals r; nextHandle := nextHandle r; checks := checks r;
     downloads := S (downloads r); checked := checked r; rendered := rendered r |}.

Definition settle_download (r : Runtime) : Runtime :=
  {| intervals := intervals r; nextHandle := nextHandle r; checks := checks r;
     downloads := pred (downloads r); checked := checked r; rendered := rendered r |}.

Definition setInterval (r : Runtime) : nat * Runtime :=
  (nextHandle r,
   {| intervals := intervals r ++ [nextHandle r]; nextHandle := S (nextHandle r);
      checks := checks r; downloads := downloads r; checked := checked r;
      rendered := rendered r |}).

Definition clearInterval (h : nat) (r : Runtime) : Runtime :=
  {| intervals := filter (λ i, i ≠ h) (intervals r); nextHandle := nextHandle r;
     checks := checks r; downloads := downloads r; checked := checked r;
     rendered := rendered r |}.

Definition set_rendered (b : bool) (r : Runtime) : Runtime :=
  {| intervals := intervals r; nextHandle := nextHandle r; checks := checks r;
     downloads := downloads r; checked := checked r; rendered := b |}.

(** *** The script block *)

Definition set_updateStatus (s : UpdateStatus) (c : Component) : Component :=
  {| currentVersion := currentVersion c; updateStatus := s;
     availableUpdate := availableUpdate c; updateError := updateError c;
     downloadProgress := downloadProgress c;
     updateCheckInterval := updateCheckInterval c; pc := pc c |}.

Definition set_availableUpdate (u : option Update) (c : Component) : Component :=
  {| currentVersion := currentVersion c; updateStatus := updateStatus c;
     availableUpdate := u; updateError := updateError c;
     downloadProgress := downloadProgress c;
     updateCheckInterval := updateCheckInterval c; pc := pc c |}.

Definition set_updateError (e : string) (c : Component) : Component :=
  {| currentVersion := currentVersion c; updateStatus := updateStatus c;
     availableUpdate := availableUpdate c; updateError := e;
     downloadProgress := downloadProgress c;
     updateCheckInterval := updateCheckInterval c; pc := pc c |}.

Definition set_downloadProgress (n : Z) (c : Component) : Component :=
  {| currentVersion := currentVersion c; updateStatus := updateStatus c;
     availableUpdate := availableUpdate c; updateError := updateError c;
     downloadProgress := n;
     updateCheckInterval := updateCheckInterval c; pc := pc c |}.

(** [checkForUpdates] up to its [await check()]. *)
Definition checkForUpdates (w : World) : World :=
  let '(c, r) := w in
  (set_updateError "" (set_updateStatus checking c), check r).

(** A pending [check()] settles: with an [Update], with [null], or with an
    error ([inl], carrying [String(error)]); [checkForUpdates] runs to its
    end. *)
Definition check_settled (result : string + option Update) (w : World) : World :=
  let '(c, r) := w in
  match checks r with
  | O => w
  | S _ =>
      match result with
      | inr (Some update) =>
          (set_updateStatus available (set_availableUpdate (Some update) c), settle_check r)
      | inr None =>
          (set_updateStatus up_to_date (set_availableUpdate None c), settle_check r)
      | inl message =>
          (set_updateStatus error (set_updateError message c), settle_check r)
      end
  end.

(** [downloadAndInstall] up to its [await]. *)
Definition downloadAndInstall (w : World) : World :=
  let '(c, r) := w in
  match availableUpdate c with
  | None => w
  | Some _ => (set_downloadProgress 0 (set_updateStatus downloading c), start_download r)
  end.

(** The callback passed to the plugin's [downloadAndInstall]. *)
Definition onDownloadEvent (e : DownloadEvent) (c : Component) : Component :=
  match e with
  | Started (Some contentLength) =>
      if bool_decide (contentLength ≠ 0) then set_downloadProgress 0 c else c
  | Started None => c
  | Progress chunkLength => set_downloadProgress (downloadProgress c + chunkLength) c
  | Finished => set_downloadProgress 100 c
  end.

(** The plugin reports an event of a download that is under way. *)
Definition download_event (e : DownloadEvent) (w : World) : World :=
  let '(c, r) := w in
  match downloads r with
  | O => w
  | S _ => (onDownloadEvent e c, r)
  end.

(** A pending download settles: it resolves ([None]) or it rejects with an
    error; [downloadAndInstall] runs to its end. *)
Definition download_settled (failure : option string) (w : World) : World :=
  let '(c, r) := w in
  match downloads r with
  | O => w
  | S _ =>
      match failure with
      | None => (c, settle_download r)
      | Some message =>
          (set_updateStatus error (set_updateError message c), settle_download r)
      end
  end.

Definition set_pc (l : MountPc) (c : Component) : Component :=
  {| currentVersion := currentVersion c; updateStatus := updateStatus c;
     availableUpdate := availableUpdate c; updateError := updateError c;
     downloadProgress := downloadProgress c;
     updateCheckInterval := updateCheckInterval c; pc := l |}.

(** The component is mounted: the template is in the document and the
    mount hook runs to its first [await]. *)
Definition onMounted (w : World) : World :=
  let '(c, r) := w in
  match pc c with
  | NotMounted => (set_pc AwaitGetVersion c, set_rendered true r)
  | _ => w
  end.

(** [await getVersion()] settles, with the version or with an error; the
    hook restores the theme and runs on to [await invoke("get_auto_start")]. *)
Definition version_settled (result : option string) (w : World) : World :=
  let '(c, r) := w in
  match pc c with
  | AwaitGetVersion =>
      ({| currentVersion := match result with Some v => v | None => currentVersion c end;
          updateStatus := updateStatus c; availableUpdate := availableUpdate c;
          updateError := updateError c; downloadProgress := downloadProgress c;
          updateCheckInterval := updateCheckInterval c; pc := AwaitGetAutoStart |}, r)
  | _ => w
  end.

(** [await invoke("get_auto_start")] settles; the hook runs to its end: the
    first check and the interval of twelve hours. *)
Definition auto_start_settled (w : World) : World :=
  let '(c, r) := w in
  match pc c with
  | AwaitGetAutoStart =>
      let '(c1, r1) := checkForUpdates (c, r) in
      let '(h, r2) := setInterval r1 in
      ({| currentVersion := currentVersion c1; updateStatus := updateStatus c1;
          availableUpdate := availableUpdate c1; updateError := updateError c1;
          downloadProgress := downloadProgress c1;
          updateCheckInterval := Some h; pc := MountDone |}, r2)
  | _ => w
  end.

(** [if (updateCheckInterval)]: [null] and [0] are falsy. *)
Definition truthy (v : option nat) : bool :=
  match v with
  | Some h => negb (h =? 0)%nat
  | None => false
  end.

(** The component is unmounted, which happens once and only to a mounted
    component: the template leaves the document and the hook runs. *)
Definition onUnmounted (w : World) : World :=
  let '(c, r) := w in
  if rendered r then
    match updateCheckInterval c with
    | Some h =>
        if truthy (Some h) then (c, set_rendered false (clearInterval h r))
        else (c, set_rendered false r)
    | None => (c, set_rendered false r)
    end
  else w.

(** An interval comes due: its callback runs if it has not been cleared. *)
Definition interval_fired (h : nat) (w : World) : World :=
  if bool_decide (h ∈ intervals w.2) then checkForUpdates w else w.

(** *** The template *)

(** [v-if] of the button "Check for updates". *)
Definition check_button (w : World) : bool :=
  rendered w.2 &&
  (bool_decide (updateStatus w.1 = idle) || bool_decide (updateStatus w.1 = up_to_date)
   || bool_decide (updateStatus w.1 = error)).

(** [v-if] of the button "Download & Install". *)
Definition download_button (w : World) : bool :=
  rendered w.2 && bool_decide (updateStatus w.1 = available).

(** What can happen to the panel.  A click reaches its handler only while
    the button is shown. *)
Inductive Input :=
| Mounted
| VersionSettled (result : option string)
| AutoStartSettled
| Unmounted
| IntervalFired (h : nat)
| ClickCheck
| ClickDownload
| CheckSettled (result : string + option Update)
| Download (e : DownloadEvent)
| DownloadSettled (failure : option string).

Definition step (w : World) (i : Input) : World :=
  match i with
  | Mounted => onMounted w
  | VersionSettled result => version_settled result w
  | AutoStartSettled => auto_start_settled w
  | Unmounted => onUnmounted w
  | IntervalFired h => interval_fired h w
  | ClickCheck => if check_button w then checkForUpdates w else w
  | ClickDownload => if download_button w then downloadAndInstall w else w
  | CheckSettled result => check_settled result w
  | Download e => download_event e w
  | DownloadSettled failure => download_settled failure w
  end.

Definition run (inputs : list Input) (w : World) : World := fold_left step inputs w.

(** *** Invariants *)

(** Whenever the panel says that an update is available, it holds one. *)
Definition offer_has_update (w : World) : Prop :=
  updateStatus w.1 = available → is_Some (availableUpdate w.1).

(** The bookkeeping of the interval: handles are positive; before the mount
    hook has finished there is no interval and the binding is [null];
    afterwards the binding holds the only handle ever given out, which is
    live while the panel is in the document. *)
Definition scheduled (w : World) : Prop :=
  (0 < nextHandle w.2)%nat ∧
  (pc w.1 = NotMounted → rendered w.2 = false) ∧
  (pc w.1 ≠ MountDone → intervals w.2 = [] ∧ updateCheckInterval w.1 = None) ∧
  (pc w.1 = MountDone →
   ∃ h, h ≠ 0%nat ∧ updateCheckInterval w.1 = Some h ∧
        (intervals w.2 = [h] ∨ (intervals w.2 = [] ∧ rendered w.2 = false))).

(** The panel after [onUnmounted] has run on a mounted panel whose mount
    hook had finished. *)
Definition stopped (w : World) : Prop :=
  pc w.1 = MountDone ∧ rendered w.2 = false ∧ intervals w.2 = [].

(** The panel after the mount hook has finished on an unmounted panel. *)
Definition leaked (h : nat) (w : World) : Prop :=
  pc w.1 = MountDone ∧ rendered w.2 = false ∧ h ∈ intervals w.2.

(** The state "checking" is shown only while a [check()] is pending. *)
Definition check_pending (w : World) : Prop :=
  updateStatus w.1 = checking → checks w.2 ≠ 0%nat.

(** The inputs that start a check or report a failure. *)
Definition checks_or_fails (i : Input) : bool :=
  match i with
  | AutoStartSettled | IntervalFired _ | CheckSettled _ | DownloadSettled (Some _) => true
  | _ => false
  end.

(** The bytes reported by a list of chunks. *)
Definition total (chunks : list Z) : Z := foldr Z.add 0 chunks.

End Updater.

(** ** The optimization pipeline

    The back end is not among the sources.  Everything in this module is
    modelled from the specification of the pipeline: its data model, the
    clipboard adapter, the state machine and the revert command. *)

Module Core.

(** Modelled from the spec: the format identifiers of a clipboard snapshot
    (the back end's clipboard adapter is missing). *)
Inductive Format := RawBitmap | PNG | JPEG | FileReferences | PlainText.

#[global] Instance Format_eq_dec : EqDecision Format.
Proof. solve_decision. Defined.

Definition Format_code (f : Format) : nat :=
  match f with
  | RawBitmap => 0 | PNG => 1 | JPEG => 2 | FileReferences => 3 | PlainText => 4
  end%nat.

Definition Format_of_code (n : nat) : option Format :=
  match n with
  | 0 => Some RawBitmap | 1 => Some PNG | 2 => Some JPEG
  | 3 => Some FileReferences | 4 => Some PlainText | _ => None
  end%nat.

#[global] Instance Format_countable : Countable Format.
Proof.
  refine (inj_countable Format_code Format_of_code _).
  intros []; reflexivity.
Defined.

Abbreviation bytes := (list byte).

#[global] Instance byte_eq_dec : EqDecision byte := Byte.byte_eq_dec.

(** Modelled from the spec: ClipboardSnapshot (section 3).  [payload] holds
    the byte buffer of each format present; [formats] is its domain. *)
Record ClipboardSnapshot := {
  payload : gmap Format bytes;
  sequenceId : nat;
}.

Definition formats (s : ClipboardSnapshot) : gset Format := dom (payload s).

(** Modelled from the spec: the decoded pixel buffer of a candidate
    (section 3, [rawPixels]). *)
Record RawPixels := { width : nat; height : nat; channels : nat; pixels : bytes }.

(** Modelled from the spec: OptimizationCandidate (section 3). *)
Record OptimizationCandidate := {
  sourceFormat : Format;
  rawPixels : RawPixels;
  originalSize : nat;
}.

(** Modelled from the spec: OptimizedResult (section 3); [newSize] is the
    byte length of [encodedBytes]. *)
Record OptimizedResult := {
  encodedBytes : bytes;
  committed : bool;
}.

Definition newSize (r : OptimizedResult) : nat := length (encodedBytes r).

(** Modelled from the spec: SessionState (section 3). *)
Record SessionState := {
  originalSnapshot : ClipboardSnapshot;
  result : OptimizedResult;
  expiresAt : Z;
}.

(** Modelled from the spec: the error kinds of section 7. *)
Inductive ErrorKind := ClipboardUnavailable | DecodeFailure | EncodeFailure | WriteFailure.

(** Modelled from the spec: the outbound notifications of section 6. *)
Inductive Event :=
| OptimizationStart
| OptimizationComplete (original_size new_size : nat).

(** Modelled from the spec: the OS clipboard behind the Clipboard Adapter
    (section 4.1): its content by format and its change counter. *)
Record Clipboard := {
  content : gmap Format bytes;
  seq : nat;
}.

(** Modelled from the spec: the adapter's [read(formats)] (4.1), which
    returns only the requested formats that are present. *)
Definition read (fs : gset Format) (cb : Clipboard) : ClipboardSnapshot :=
  {| payload := filter (λ kv, kv.1 ∈ fs) (content cb); sequenceId := seq cb |}.

(** Modelled from the spec: a successful adapter write (4.1).  It replaces
    the content (an OS clipboard clears all formats on a write) and
    advances the change counter. *)
Definition write_all (p : gmap Format bytes) (cb : Clipboard) : Clipboard :=
  {| content := p; seq := S (seq cb) |}.

(** Modelled from the spec: the adapter's [write(payload, format)] (4.1). *)
Definition write (buf : bytes) (f : Format) (cb : Clipboard) : Clipboard :=
  write_all {[ f := buf ]} cb.

(** Modelled from the spec: the Codec (section 2), an external library;
    [None] is a decode or encode failure. *)
Record Codec := {
  decode : Format → bytes → option RawPixels;
  encode : RawPixels → option bytes;
}.

(** Modelled from the spec: the fixed floor and threshold of the skip
    policy (4.2, transition 2) and the session expiry (4.3), whose values
    the specification leaves open. *)
Record Config := {
  min_size : nat;
  jpeg_threshold : nat;
  session_ttl : Z;
  enforce_expiry : bool;
}.

(** Modelled from the spec: the raster formats the pipeline asks the
    adapter for (the codec decodes a small set of raster formats). *)
Definition image_formats : list Format := [PNG; JPEG; RawBitmap].

Definition watched : gset Format := list_to_set image_formats.

(** Modelled from the spec: the detected image format of a snapshot, if it
    contains one (section 3, [sourceFormat]). *)
Definition detect (s : ClipboardSnapshot) : option Format :=
  List.find (λ f, bool_decide (f ∈ formats s)) image_formats.

(** Modelled from the spec: the states of the pipeline (section 4.2), each
    with the data the run carries at that point. *)
Inductive Phase :=
| Idle
| Evaluating (s : ClipboardSnapshot)
| Encoding (s : ClipboardSnapshot) (c : OptimizationCandidate)
| Committing (s : ClipboardSnapshot) (c : OptimizationCandidate) (r : OptimizedResult)
| Skipped
| Failed (e : ErrorKind).

(** Modelled from the spec: the process-wide state of the back end together
    with the clipboard it acts on.  [pending] is the coalescing slot,
    [lastWritten] the sequence id of the pipeline's own last write,
    [emitted] the events sent to the UI, [dequeued] the snapshots taken out
    of the slot for evaluation, [logged] the errors handed to the
    observability collaborator. *)
Record World := {
  phase : Phase;
  pending : option ClipboardSnapshot;
  lastWritten : option nat;
  session : option SessionState;
  emitted : list Event;
  dequeued : list ClipboardSnapshot;
  logged : list ErrorKind;
  clipboard : Clipboard;
  clock : Z;
}.

Definition initial : World :=
  {| phase := Idle; pending := None; lastWritten := None; session := None;
     emitted := []; dequeued := []; logged := [];
     clipboard := {| content := ∅; seq := 0 |}; clock := 0 |}.

Definition set_phase (v : Phase) (w : World) : World :=
  {| phase := v; pending := pending w; lastWritten := lastWritten w;
     session := session w; emitted := emitted w; dequeued := dequeued w;
     logged := logged w; clipboard := clipboard w; clock := clock w |}.

Definition set_pending (v : option ClipboardSnapshot) (w : World) : World :=
  {| phase := phase w; pending := v; lastWritten := lastWritten w;
     session := session w; emitted := emitted w; dequeued := dequeued w;
     logged := logged w; clipboard := clipboard w; clock := clock w |}.

Definition set_lastWritten (v : option nat) (w : World) : World :=
  {| phase := phase w; pending := pending w; lastWritten := v;
     session := session w; emitted := emitted w; dequeued := dequeued w;
     logged := logged w; clipboard := clipboard w; clock := clock w |}.

Definition set_session (v : option SessionState) (w : World) : World :=
  {| phase := phase w; pending := pending w; lastWritten := lastWritten w;
     session := v; emitted := emitted w; dequeued := dequeued w;
     logged := logged w; clipboard := clipboard w; clock := clock w |}.

Definition emit (e : Event) (w : World) : World :=
  {| phase := phase w; pending := pending w; lastWritten := lastWritten w;
     session := session w; emitted := emitted w ++ [e]; dequeued := dequeued w;
     logged := logged w; clipboard := clipboard w; clock := clock w |}.

Definition note_dequeued (s : ClipboardSnapshot) (w : World) : World :=
  {| phase := phase w; pending := pending w; lastWritten := lastWritten w;
     session := session w; emitted := emitted w; dequeued := dequeued w ++ [s];
     logged := logged w; clipboard := clipboard w; clock := clock w |}.

Definition log_error (e : ErrorKind) (w : World) : World :=
  {| phase := phase w; pending := pending w; lastWritten := lastWritten w;
     session := session w; emitted := emitted w; dequeued := dequeued w;
     logged := logged w ++ [e]; clipboard := clipboard w; clock := clock w |}.

Definition set_clipboard (v : Clipboard) (w : World) : World :=
  {| phase := phase w; pending := pending w; lastWritten := lastWritten w;
     session := session w; emitted := emitted w; dequeued := dequeued w;
     logged := logged w; clipboard := v; clock := clock w |}.

Definition set_clock (v : Z) (w : World) : World :=
  {| phase := phase w; pending := pending w; lastWritten := lastWritten w;
     session := session w; emitted := emitted w; dequeued := dequeued w;
     logged := logged w; clipboard := clipboard w; clock := v |}.

Section Pipeline.

Variable codec : Codec.
Variable cfg : Config.

(** Modelled from the spec: transition 1 of section 4.2.  A snapshot taken
    out of the slot is ignored if it carries the sequence id of the
    pipeline's own last write; otherwise the pipeline enters [Evaluating] and
    emits optimization-start if the snapshot contains an image format, and
    is back in [Idle] without emitting anything if it does not. *)
Definition accept (s : ClipboardSnapshot) (w : World) : World :=
  let w := note_dequeued s w in
  if bool_decide (lastWritten w = Some (sequenceId s)) then w
  else match detect s with
       | Some _ => set_phase (Evaluating s) (emit OptimizationStart w)
       | None => w
       end.

(** Modelled from the spec: the skip policy of transition 2. *)
Definition skip_policy (f : Format) (size : nat) : bool :=
  (size <? min_size cfg)%nat || (bool_decide (f = JPEG) && (size <? jpeg_threshold cfg)%nat).

(** Modelled from the spec: transition 5, the committing write. *)
Definition commit (s : ClipboardSnapshot) (c : OptimizationCandidate)
    (r : OptimizedResult) (w : World) : World :=
  let cb := write (encodedBytes r) JPEG (clipboard w) in
  let ss := {| originalSnapshot := s;
               result := {| encodedBytes := encodedBytes r; committed := true |};
               expiresAt := clock w + session_ttl cfg |} in
  set_phase Idle
    (emit (OptimizationComplete (originalSize c) (newSize r))
       (set_session (Some ss) (set_lastWritten (Some (seq cb)) (set_clipboard cb w)))).

(** Modelled from the spec: one transition of the state machine of section
    4.2.  [write_ok] tells whether the adapter accepts a write attempted in
    this transition.  In [Idle] the single consumer takes the pending
    snapshot, if there is one. *)
Definition advance (write_ok : bool) (w : World) : World :=
  match phase w with
  | Idle =>
      match pending w with
      | Some s => accept s (set_pending None w)
      | None => w
      end
  | Evaluating s =>
      match detect s with
      | None => set_phase Idle w
      | Some f =>
          let buf := default [] (payload s !! f) in
          if skip_policy f (length buf) then set_phase Skipped w
          else match decode codec f buf with
               | None => set_phase (Failed DecodeFailure) w
               | Some px =>
                   set_phase (Encoding s {| sourceFormat := f; rawPixels := px;
                                            originalSize := length buf |}) w
               end
      end
  | Encoding s c =>
      match encode codec (rawPixels c) with
      | None => set_phase (Failed EncodeFailure) w
      | Some b =>
          let r := {| encodedBytes := b; committed := false |} in
          if (newSize r <? originalSize c)%nat then set_phase (Committing s c r) w
          else set_phase Skipped w
      end
  | Committing s c r =>
      if write_ok then commit s c r w else set_phase (Failed WriteFailure) w
  | Skipped => set_phase Idle w
  | Failed e => set_phase Idle (log_error e w)
  end.

(** Modelled from the spec: a clipboard-change notification (4.1, 4.2).  The
    pipeline reads a snapshot and puts it into the coalescing slot, where
    it replaces a snapshot still waiting; a failed read is dropped. *)
Definition notify (read_ok : bool) (w : World) : World :=
  if read_ok then set_pending (Some (read watched (clipboard w))) w
  else log_error ClipboardUnavailable w.

(** Modelled from the spec: another application replaces the clipboard
    content, which advances the change counter. *)
Definition external_change (p : gmap Format bytes) (w : World) : World :=
  set_clipboard (write_all p (clipboard w)) w.

(** Modelled from the spec: what the adapter does with the write of a
    revert (section 7): it succeeds, or it is rejected and leaves the
    clipboard in some state. *)
Inductive WriteOutcome :=
| Written
| Rejected (leftover : Clipboard).

(** Modelled from the spec: a session is live if it holds a committed
    result and, where the caller enforces the expiry, has not expired. *)
Definition live (w : World) (ss : SessionState) : bool :=
  committed (result ss) && (negb (enforce_expiry cfg) || (clock w <=? expiresAt ss)).

(** Modelled from the spec: the order in which [revert()] hands the buffers
    of a snapshot to the adapter.  The specification leaves it open; here
    the image format that [detect] finds, the one that was optimized, comes
    last. *)
Definition restore_order : list Format := [FileReferences; PlainText; RawBitmap; JPEG; PNG].

(** Modelled from the spec: writing a snapshot's payload back through the
    adapter (4.3), one [write(payload, format)] for each format the
    snapshot holds.  Each of them replaces the content (4.1), so the
    buffer written last is the one the clipboard keeps. *)
Definition restore (s : ClipboardSnapshot) (cb : Clipboard) : Clipboard :=
  foldl (λ cb f, match payload s !! f with
                 | Some buf => write buf f cb
                 | None => cb
                 end) cb restore_order.

(** Modelled from the spec: the clipboard after a rejected write (section
    7).  It holds what the failed attempt left; the change counter, which
    only moves forward (section 3), has advanced if the content has
    changed. *)
Definition disturbed (leftover cb : Clipboard) : Clipboard :=
  if bool_decide (content leftover = content cb) then cb
  else write_all (content leftover) cb.

(** Modelled from the spec: [revert()] of section 4.3, with the error it
    surfaces to the caller, if any.  The sequence id its write produces is
    recorded, as for every write of the pipeline (4.1, 4.2), so that the
    notification of that write is ignored. *)
Definition revert (o : WriteOutcome) (w : World) : World * option ErrorKind :=
  match session w with
  | Some ss =>
      if live w ss then
        match o with
        | Written =>
            let cb := restore (originalSnapshot ss) (clipboard w) in
            (set_session None (set_lastWritten (Some (seq cb)) (set_clipboard cb w)), None)
        | Rejected leftover =>
            (log_error WriteFailure (set_clipboard (disturbed leftover (clipboard w)) w),
             Some WriteFailure)
        end
      else (w, None)
  | None => (w, None)
  end.

(** Modelled from the spec: what happens to the back end, one at a time
    (section 5: every state transition goes through a single serialization
    point): a change of the clipboard by another application, a change
    notification, a transition of the state machine, the revert command,
    the passing of time. *)
Inductive Input :=
| ExternalChange (p : gmap Format bytes)
| Notify (read_ok : bool)
| Advance (write_ok : bool)
| Revert (o : WriteOutcome)
| Elapse (ms : N).

Definition step (w : World) (i : Input) : World :=
  match i with
  | ExternalChange p => external_change p w
  | Notify read_ok => notify read_ok w
  | Advance write_ok => advance write_ok w
  | Revert o => (revert o w).1
  | Elapse ms => set_clock (clock w + Z.of_N ms) w
  end.

Definition run (inputs : list Input) (w : World) : World := fold_left step inputs w.

(** Clipboard changes by other applications, each with its notification. *)
Definition changes (ps : list (gmap Format bytes)) : list Input :=
  ps ≫= λ p, [ExternalChange p; Notify true].

(** Modelled from the spec: one optimization run, the transitions from a
    state in which a run is in flight ([Evaluating], [Encoding],
    [Committing]) up to the state that ends it. *)
Inductive in_flight : Phase → Prop :=
| in_flight_evaluating s : in_flight (Evaluating s)
| in_flight_encoding s c : in_flight (Encoding s c)
| in_flight_committing s c r : in_flight (Committing s c r).

Inductive run_to : World → World → Prop :=
| run_to_here w : run_to w w
| run_to_step w w' write_ok :
    in_flight (phase w) → run_to (advance write_ok w) w' → run_to w w'.

(** The encoded bytes were written back: the clipboard of [w'] is that of
    [w] after an adapter write of [b] as JPEG. *)
Definition written_back (b : bytes) (w w' : World) : Prop :=
  clipboard w' = write b JPEG (clipboard w).

(** A snapshot as the pipeline reads it holds no format it did not ask
    for. *)
Definition from_read (s : ClipboardSnapshot) : Prop := formats s ⊆ watched.

Definition phase_consistent (ph : Phase) : Prop :=
  match ph with
  | Evaluating s | Encoding s _ => from_read s
  | Committing s c r => from_read s ∧ (newSize r < originalSize c)%nat
  | _ => True
  end.

(** What holds in every state the back end can reach: the snapshots it
    holds came from [read]; a result that reached [Committing] is smaller
    than its original; the session holds a committed result; every
    completion event reports a reduction. *)
Definition consistent (w : World) : Prop :=
  phase_consistent (phase w) ∧
  (∀ s, pending w = Some s → from_read s) ∧
  (∀ ss, session w = Some ss →
         from_read (originalSnapshot ss) ∧ committed (result ss) = true) ∧
  (∀ o n, OptimizationComplete o n ∈ emitted w → (n < o)%nat).

(** The number of transitions a run can still take before the pipeline is
    back in [Idle]. *)
Definition rank (ph : Phase) : nat :=
  match ph with
  | Idle => 0
  | Skipped | Failed _ => 1
  | Committing _ _ _ => 2
  | Encoding _ _ => 3
  | Evaluating _ => 4
  end.









End Pipeline.

(** *** A codec and clipboard contents to run the model on *)

Definition halving_codec : Codec :=
  {| decode := λ _ buf, Some {| width := length buf; height := 1; channels := 1; pixels := buf |};
     encode := λ px, Some (take (length (pixels px) / 2) (pixels px)) |}.

Definition no_decoder : Codec :=
  {| decode := λ _ _, None; encode := encode halving_codec |}.

Definition no_encoder : Codec :=
  {| decode := decode halving_codec; encode := λ _, None |}.

Definition growing_codec : Codec :=
  {| decode := decode halving_codec; encode := λ px, Some (x00 :: pixels px) |}.

Definition small_cfg : Config :=
  {| min_size := 2; jpeg_threshold := 3; session_ttl := 5000; enforce_expiry := true |}.

Definition screenshot : gmap Format bytes := {[ PNG := [x89; x50; x4e; x47] ]}.

Definition icon : gmap Format bytes := {[ PNG := [x89] ]}.

Definition text_only : gmap Format bytes := {[ PlainText := [x68; x69] ]}.


Definition captioned : gmap Format bytes :=
  {[ PNG := [x89; x50; x4e; x47]; PlainText := [x68; x69] ]}.

End Core.

(** * Properties of the overlay *)

Module OverlayProofs.
Import Overlay.

(** *** Formatting of sizes *)

Example formatSize_B : formatSize 1023 = "1023 B".
Proof. vm_compute. reflexivity. Qed.

Example formatSize_KB : formatSize 450000 = "439.5 KB".
Proof. vm_compute. reflexivity. Qed.

Example formatSize_KB_carry : formatSize 1048575 = "1024.0 KB".
Proof. vm_compute. reflexivity. Qed.

Example formatSize_MB : formatSize 2000000 = "1.91 MB".
Proof. vm_compute. reflexivity. Qed.

Example formatSize_MB_pad : formatSize 1100000 = "1.05 MB".
Proof. vm_compute. reflexivity. Qed.

Lemma append_assoc (a b c : string) : (a +:+ b) +:+ c = a +:+ b +:+ c.
Proof.
  induction a as [|ch a IH]; [reflexivity|].
  change (String ch ((a +:+ b) +:+ c) = String ch (a +:+ b +:+ c)).
  now rewrite IH.
Qed.

Lemma append_empty_r (a : string) : a +:+ "" = a.
Proof.
  induction a as [|ch a IH]; [reflexivity|].
  change (String ch (a +:+ "") = String ch a). now rewrite IH.
Qed.

Lemma length_append (a b : string) :
  String.length (a +:+ b) = (String.length a + String.length b)%nat.
Proof.
  induction a as [|ch a IH]; [reflexivity|].
  change (S (String.length (a +:+ b)) = S (String.length a + String.length b)).
  now rewrite IH.
Qed.

Lemma digit_value_char (d : N) :
  (d < 10)%N → Js.digit_value (pretty_N_char d) = Some (Z.of_N d).
Proof.
  intros H.
  assert (d = 0 ∨ d = 1 ∨ d = 2 ∨ d = 3 ∨ d = 4 ∨ d = 5 ∨ d = 6 ∨ d = 7 ∨ d = 8 ∨ d = 9)%N
    as E by lia.
  repeat destruct E as [-> | E]; try subst d; reflexivity.
Qed.

(** The digits [pretty_N_go] puts in front of its accumulator denote the
    number, and the first of them is not a zero. *)
Lemma pretty_N_go_digits (x : N) :
  ∃ t : string,
    (∀ s, pretty_N_go x s = t +:+ s) ∧
    (∀ acc s, Js.decimal_value_from acc (t +:+ s) =
              Js.decimal_value_from (acc * 10 ^ Z.of_nat (String.length t) + Z.of_N x) s) ∧
    match t with
    | String a _ => Js.digit_value a ≠ Some 0
    | EmptyString => x = 0%N
    end.
Proof.
  induction (N.lt_wf_0 x) as [x _ IH].
  destruct (decide (x = 0%N)) as [-> | Hx].
  - exists "". split_and!; [reflexivity | | reflexivity].
    intros acc s. cbn. f_equal. lia.
  - destruct (IH (x `div` 10)%N) as (t0 & Ht0 & Hv0 & Hl0); [apply N.div_lt; lia|].
    exists (t0 +:+ String (pretty_N_char (x `mod` 10)) "").
    assert (x `mod` 10 < 10)%N as Hm by (apply N.mod_lt; lia).
    split_and!.
    + intros s. rewrite pretty_N_go_step by lia. rewrite Ht0. now rewrite append_assoc.
    + intros acc s. rewrite append_assoc. rewrite Hv0.
      change (String (pretty_N_char (x `mod` 10)) "" +:+ s)
        with (String (pretty_N_char (x `mod` 10)) s).
      cbn [Js.decimal_value_from]. rewrite digit_value_char by exact Hm.
      f_equal.
      rewrite length_append. cbn [String.length]. rewrite Nat.add_1_r.
      rewrite Nat2Z.inj_succ, Z.pow_succ_r by lia.
      pose proof (N.div_mod x 10) as Hdm.
      assert (Z.of_N x = 10 * Z.of_N (x `div` 10) + Z.of_N (x `mod` 10)) as -> by lia.
      lia.
    + destruct t0 as [|a t0]; [|exact Hl0].
      change (Js.digit_value (pretty_N_char (x `mod` 10)) ≠ Some 0).
      rewrite digit_value_char by exact Hm. intros [= E]. cbn in Hl0.
      rewrite (N.div_mod x 10) in Hx by lia. lia.
Qed.

Lemma numeral_number_to_string (n : Z) : 0 <= n → Js.numeral (Js.number_to_string n) n.
Proof.
  intros Hn. unfold Js.number_to_string.
  destruct n as [|p|p]; [split; reflexivity | | lia].
  change (pretty (Z.pos p)) with (pretty (N.pos p)).
  unfold pretty, pretty_N. rewrite decide_False by discriminate.
  destruct (pretty_N_go_digits (N.pos p)) as (t & Ht & Hv & Hl).
  rewrite Ht.
  rewrite append_empty_r.
  destruct t as [|a t]; [discriminate Hl|].
  split.
  - unfold Js.decimal_value.
    specialize (Hv 0 "").
    rewrite append_empty_r in Hv. rewrite Hv. cbn. reflexivity.
  - destruct t; [exact I | exact Hl].
Qed.

(** [toFixed_int] is a nearest integer: it is within one half of the scaled
    value. *)
Lemma toFixed_int_nearest (x : Q) (f : nat) :
  (Qabs (inject_Z (Js.toFixed_int x f) - x * inject_Z (10 ^ Z.of_nat f)) <= 1 # 2)%Q.
Proof.
  unfold Js.toFixed_int.
  set (y := (x * inject_Z (10 ^ Z.of_nat f))%Q).
  pose proof (Qfloor_le (y + (1 # 2))) as Hle.
  pose proof (Qlt_floor (y + (1 # 2))) as Hlt.
  rewrite inject_Z_plus in Hlt.
  change (inject_Z 1) with 1%Q in Hlt.
  apply Qabs_Qle_condition. split; lra.
Qed.

(** On a tie [toFixed_int] takes the larger integer. *)
Lemma toFixed_int_tie (m : Z) : Js.toFixed_int (inject_Z m + (1 # 2)) 0 = m + 1.
Proof.
  unfold Js.toFixed_int.
  assert (E : ((inject_Z m + (1 # 2)) * inject_Z (10 ^ Z.of_nat 0) + (1 # 2) == inject_Z (m + 1))%Q).
  { rewrite inject_Z_plus. change (inject_Z (10 ^ Z.of_nat 0)) with 1%Q.
    change (inject_Z 1) with 1%Q. lra. }
  rewrite (Qfloor_comp _ _ E). apply Qfloor_Z.
Qed.

Lemma digit_length (d : Z) : 0 <= d < 10 → String.length (Js.number_to_string d) = 1%nat.
Proof.
  intros H.
  assert (d = 0 ∨ d = 1 ∨ d = 2 ∨ d = 3 ∨ d = 4 ∨ d = 5 ∨ d = 6 ∨ d = 7 ∨ d = 8 ∨ d = 9)
    as E by lia.
  repeat destruct E as [-> | E]; try subst d; reflexivity.
Qed.

Lemma pad_one_digit (d : Z) : 0 <= d < 10 → Js.pad_zeros 1 (Js.number_to_string d) = Js.number_to_string d.
Proof. intros H. unfold Js.pad_zeros. rewrite (digit_length d H). reflexivity. Qed.

Lemma pad_two_digits_nat (d : nat) :
  (d < 100)%nat →
  Js.pad_zeros 2 (Js.number_to_string (Z.of_nat d)) =
  Js.number_to_string (Z.of_nat d / 10) +:+ Js.number_to_string (Z.of_nat d mod 10).
Proof.
  intros H.
  do 100 (destruct d as [|d]; [vm_compute; reflexivity|]).
  lia.
Qed.

Lemma pad_two_digits (d : Z) :
  0 <= d < 100 →
  Js.pad_zeros 2 (Js.number_to_string d) =
  Js.number_to_string (d / 10) +:+ Js.number_to_string (d mod 10).
Proof.
  intros H. rewrite <- (Z2Nat.id d) by lia. apply pad_two_digits_nat. lia.
Qed.

Lemma tenths_of_KB (size : Z) :
  Js.toFixed_int (inject_Z size / 1024) 1 = (20 * size + 1024) / 2048.
Proof.
  unfold Js.toFixed_int, Qfloor, Qdiv, Qmult, Qplus, Qinv, inject_Z. cbn. f_equal. lia.
Qed.

Lemma hundredths_of_MB (size : Z) :
  Js.toFixed_int (inject_Z size / inject_Z (1024 * 1024)) 2 = (200 * size + 1048576) / 2097152.
Proof.
  change (1024 * 1024) with 1048576.
  unfold Js.toFixed_int. change (10 ^ Z.of_nat 2) with 100.
  unfold Qfloor, Qdiv, Qmult, Qplus, Qinv, inject_Z. cbn. f_equal. lia.
Qed.

(** Up to [MAX_SAFE_INTEGER] bytes the quotients stay below [10^21], where
    [toFixed] prints plain digits. *)
Lemma toFixed_KB (size : Z) :
  0 <= size <= Js.MAX_SAFE_INTEGER →
  Js.toFixed (inject_Z size / 1024) 1 = Js.fixed_digits (inject_Z size / 1024) 1.
Proof.
  intros H. unfold Js.toFixed.
  destruct (Qle_bool _ _) eqn:E; [|reflexivity].
  apply Qle_bool_iff in E. unfold Qle, Qdiv, Qmult, Qinv, inject_Z in E. cbn in E.
  unfold Js.MAX_SAFE_INTEGER in H. lia.
Qed.

Lemma toFixed_MB (size : Z) :
  0 <= size <= Js.MAX_SAFE_INTEGER →
  Js.toFixed (inject_Z size / inject_Z (1024 * 1024)) 2 =
  Js.fixed_digits (inject_Z size / inject_Z (1024 * 1024)) 2.
Proof.
  intros H. unfold Js.toFixed.
  destruct (Qle_bool _ _) eqn:E; [|reflexivity].
  apply Qle_bool_iff in E. change (1024 * 1024) with 1048576 in E.
  unfold Qle, Qdiv, Qmult, Qinv, inject_Z in E. cbn in E.
  unfold Js.MAX_SAFE_INTEGER in H. lia.
Qed.

Lemma one_digit (d : Z) :
  0 <= d < 10 →
  String.length (Js.number_to_string d) = 1%nat ∧
  Js.decimal_value (Js.number_to_string d) = Some d.
Proof.
  intros H.
  assert (d = 0 ∨ d = 1 ∨ d = 2 ∨ d = 3 ∨ d = 4 ∨ d = 5 ∨ d = 6 ∨ d = 7 ∨ d = 8 ∨ d = 9)
    as E by lia.
  repeat destruct E as [-> | E]; try subst d; split; reflexivity.
Qed.

Lemma two_digits_nat (d : nat) :
  (d < 100)%nat →
  String.length (Js.pad_zeros 2 (Js.number_to_string (Z.of_nat d))) = 2%nat ∧
  Js.decimal_value (Js.pad_zeros 2 (Js.number_to_string (Z.of_nat d))) = Some (Z.of_nat d).
Proof.
  intros H.
  do 100 (destruct d as [|d]; [vm_compute; split; reflexivity|]).
  lia.
Qed.

Lemma two_digits (d : Z) :
  0 <= d < 100 →
  String.length (Js.pad_zeros 2 (Js.number_to_string d)) = 2%nat ∧
  Js.decimal_value (Js.pad_zeros 2 (Js.number_to_string d)) = Some d.
Proof.
  intros H. rewrite <- (Z2Nat.id d) by lia. apply two_digits_nat. lia.
Qed.

(** The text of a string that splits as digits, a point, two characters
    and " MB" has its point right after the digits. *)
Lemma not_two_decimals_MB :
  ¬ ∃ (h : Z) (i f : string),
      "1.1805916207174113e+21 MB" = i +:+ "." +:+ f +:+ " MB" ∧
      Js.numeral i (h / 100) ∧ String.length f = 2%nat ∧
      Js.decimal_value f = Some (h mod 100).
Proof.
  intros (h & i & f & E & [Hi _] & Hf & _).
  destruct i as [|a [|b i]].
  - discriminate Hi.
  - destruct f as [|x [|y [|z f]]]; try discriminate Hf.
    cbn in E. discriminate E.
  - cbn in E. injection E as <- <- _. cbn in Hi. discriminate Hi.
Qed.

(** C10: for a non-negative integer [size] up to [MAX_SAFE_INTEGER],
    [formatSize] gives the decimal numeral of the size followed by " B"
    below 1024.  Below 1048576 it gives size / 1024 rounded to one decimal
    followed by " KB": with [t] the number of tenths nearest to the
    quotient (the larger one on a tie), the numeral of [t / 10], a point
    and the digit [t mod 10].  Otherwise it gives size / 1048576 rounded to
    two decimals followed by " MB": with [h] the nearest number of
    hundredths, the numeral of [h / 100], a point and the two digits of
    [h mod 100].  The finished state shows the check mark and
    [formatSize originalSize], " → " and [formatSize newSize]; after an
    optimization-complete event these are the two sizes of the event. *)
Theorem formatSize_spec (size o n : Z) (w : World) :
  0 <= size <= Js.MAX_SAFE_INTEGER →
  (size < 1024 → ∃ d : string, formatSize size = d +:+ " B" ∧ Js.numeral d size) ∧
  (1024 <= size < 1048576 →
     ∃ (t : Z) (i f : string),
       20 * size - 1024 < 2048 * t <= 20 * size + 1024 ∧
       formatSize size = i +:+ "." +:+ f +:+ " KB" ∧
       Js.numeral i (t / 10) ∧ String.length f = 1%nat ∧
       Js.decimal_value f = Some (t mod 10)) ∧
  (1048576 <= size →
     ∃ (h : Z) (i f : string),
       200 * size - 1048576 < 2097152 * h <= 200 * size + 1048576 ∧
       formatSize size = i +:+ "." +:+ f +:+ " MB" ∧
       Js.numeral i (h / 100) ∧ String.length f = 2%nat ∧
       Js.decimal_value f = Some (h mod 100)) ∧
  (state w.1 = finished →
     render w.1 = ["✓"; formatSize (originalSize w.1) +:+ " → " +:+ formatSize (newSize w.1)]) ∧
  ("optimization-complete" ∈ listeners w.2 →
     render (step w (Emit (OptimizationComplete o n))).1 =
       ["✓"; formatSize o +:+ " → " +:+ formatSize n]).
Proof.
  intros Hsize. split_and!.
  - intros H. unfold formatSize.
    destruct (Z.ltb_spec size 1024); [|lia].
    eexists. split; [reflexivity|]. apply numeral_number_to_string. lia.
  - intros [H1 H2]. unfold formatSize.
    destruct (Z.ltb_spec size 1024); [lia|].
    destruct (Z.ltb_spec size (1024 * 1024)); [|lia].
    rewrite toFixed_KB by exact Hsize. unfold Js.fixed_digits.
    rewrite tenths_of_KB. change (10 ^ Z.of_nat 1) with 10.
    set (t := (20 * size + 1024) / 2048).
    assert (0 <= t) as Ht by (subst t; Z.div_mod_to_equations; lia).
    assert (0 <= t mod 10 < 10) as Hd by (apply Z.mod_pos_bound; lia).
    rewrite pad_one_digit by exact Hd.
    destruct (one_digit (t mod 10) Hd) as [L V].
    exists t, (Js.number_to_string (t / 10)), (Js.number_to_string (t mod 10)).
    split_and!; [subst t; Z.div_mod_to_equations; lia..
                | now rewrite !append_assoc
                | apply numeral_number_to_string; Z.div_mod_to_equations; lia
                | exact L | exact V].
  - intros H1. unfold formatSize.
    destruct (Z.ltb_spec size 1024); [lia|].
    destruct (Z.ltb_spec size (1024 * 1024)); [lia|].
    rewrite toFixed_MB by exact Hsize. unfold Js.fixed_digits.
    rewrite hundredths_of_MB. change (10 ^ Z.of_nat 2) with 100.
    set (h := (200 * size + 1048576) / 2097152).
    assert (0 <= h) as Hh by (subst h; Z.div_mod_to_equations; lia).
    assert (0 <= h mod 100 < 100) as Hd by (apply Z.mod_pos_bound; lia).
    destruct (two_digits (h mod 100) Hd) as [L V].
    exists h, (Js.number_to_string (h / 100)), (Js.pad_zeros 2 (Js.number_to_string (h mod 100))).
    split_and!; [subst h; Z.div_mod_to_equations; lia..
                | now rewrite !append_assoc
                | apply numeral_number_to_string; Z.div_mod_to_equations; lia
                | exact L | exact V].
  - intros H. unfold render, statistics. now rewrite H.
  - intros H. destruct w as [c r]. cbn [step fst snd] in *.
    unfold dispatch. rewrite bool_decide_eq_true_2 by exact H.
    cbn [snd]. unfold onComplete, startAutoHideTimer.
    destruct (clearAutoHideTimer _) as [c' r'] eqn:E.
    assert (state c' = finished ∧ originalSize c' = o ∧ newSize c' = n) as (H1 & H2 & H3).
    { unfold clearAutoHideTimer in E. cbn [autoHideTimer] in E.
      destruct (autoHideTimer c) as [t|]; [destruct (truthy (Some t))|];
        injection E as <- <-; now split_and!. }
    cbn. unfold render, statistics. cbn. now rewrite H1, H2, H3.
Qed.

Lemma formatSize_spec_witness :
  0 <= 450000 <= Js.MAX_SAFE_INTEGER ∧ 1024 <= 450000 < 1048576 ∧
  formatSize 450000 = "439.5 KB" ∧
  ∃ (t : Z) (i f : string),
    20 * 450000 - 1024 < 2048 * t <= 20 * 450000 + 1024 ∧
    formatSize 450000 = i +:+ "." +:+ f +:+ " KB" ∧
    Js.numeral i (t / 10) ∧ String.length f = 1%nat ∧
    Js.decimal_value f = Some (t mod 10).
Proof.
  assert (0 <= 450000 <= Js.MAX_SAFE_INTEGER) as H by (unfold Js.MAX_SAFE_INTEGER; lia).
  assert (1024 <= 450000 < 1048576) as H' by lia.
  destruct (formatSize_spec 450000 0 0 initial H) as (_ & HK & _).
  split; [exact H|]. split; [exact H'|]. split; [reflexivity|]. exact (HK H').
Defined.

(** C10, as the claim has it, fails for large sizes: [2^90] is a
    non-negative integer and a double, its quotient by 1048576 is [2^70],
    which is above [10^21], where [toFixed] prints exponent notation.  The
    text is not a number with two decimals. *)
Lemma formatSize_exponent_notation :
  let size := 2 ^ 90 in
  0 <= size ∧ 1048576 <= size ∧ Js.to_double size = size ∧
  formatSize size = "1.1805916207174113e+21 MB" ∧
  ¬ ∃ (h : Z) (i f : string),
      formatSize size = i +:+ "." +:+ f +:+ " MB" ∧
      Js.numeral i (h / 100) ∧ String.length f = 2%nat ∧
      Js.decimal_value f = Some (h mod 100).
Proof.
  intros size.
  assert (formatSize size = "1.1805916207174113e+21 MB") as E by (vm_compute; reflexivity).
  split_and!; [subst size; lia | subst size; lia | vm_compute; reflexivity | exact E |].
  rewrite E. exact not_two_decimals_MB.
Qed.


(** *** Timers and events *)

Lemma tracked_initial : tracked initial.
Proof.
  repeat split; simpl; try lia; try discriminate; auto.
  intros cmd H. unfold commands in H. simpl in H. inversion H.
Qed.

(** In a tracked state [clearAutoHideTimer] leaves no timeout pending. *)
Lemma clearAutoHideTimer_tracked (c : Component) (r : Runtime) :
  tracked (c, r) →
  clearAutoHideTimer (c, r) = (set_autoHideTimer None c, no_timers r).
Proof.
  intros (Hpos & Hnz & Htm & _). simpl in *.
  unfold clearAutoHideTimer.
  destruct c as [st os ns aht us uc p], r as [t tms nh ls inv]. simpl in *.
  destruct aht as [h|].
  - assert (h ≠ 0%nat) as Hh by (apply Hnz; reflexivity).
    unfold truthy. destruct (Nat.eqb_spec h 0) as [->|_]; [congruence|]. simpl.
    unfold set_autoHideTimer, clearTimeout, no_timers. simpl. do 2 f_equal.
    destruct Htm as [-> | (h' & d & -> & E)]; [reflexivity|].
    injection E as ->. rewrite filter_cons, decide_False; [reflexivity|].
    simpl. intros H. now apply H.
  - destruct Htm as [-> | (h' & d & _ & E)]; [reflexivity | discriminate].
Qed.

Lemma startAutoHideTimer_tracked (c : Component) (r : Runtime) :
  tracked (c, r) →
  startAutoHideTimer (c, r) =
  (set_autoHideTimer (Some (nextHandle r)) c,
   {| now := now r;
      timers := [{| handle := nextHandle r; due := now r + 5000; command := "hide_progress" |}];
      nextHandle := S (nextHandle r); listeners := listeners r; invoked := invoked r |}).
Proof.
  intros H. unfold startAutoHideTimer. rewrite (clearAutoHideTimer_tracked c r H).
  reflexivity.
Qed.

Lemma tracked_clear (c : Component) (r : Runtime) :
  tracked (c, r) → tracked (clearAutoHideTimer (c, r)).
Proof.
  intros H. rewrite (clearAutoHideTimer_tracked c r H).
  destruct H as (Hpos & Hnz & Htm & Hcmd).
  repeat split; simpl in *; auto; discriminate.
Qed.

Lemma tracked_start (c : Component) (r : Runtime) :
  tracked (c, r) → tracked (startAutoHideTimer (c, r)).
Proof.
  intros H. rewrite (startAutoHideTimer_tracked c r H).
  destruct H as (Hpos & Hnz & Htm & Hcmd).
  repeat split; simpl in *; auto.
  - intros h [= <-]. lia.
  - right. eauto.
Qed.

(** Changes of the component that leave [autoHideTimer] alone, and changes
    of the listeners, preserve the bookkeeping. *)
Lemma tracked_same (c c' : Component) (r r' : Runtime) :
  autoHideTimer c' = autoHideTimer c →
  timers r' = timers r → nextHandle r' = nextHandle r → invoked r' = invoked r →
  tracked (c, r) → tracked (c', r').
Proof.
  intros E1 E2 E3 E4 (Hpos & Hnz & Htm & Hcmd).
  unfold tracked, commands in *. simpl in *.
  rewrite E1, E2, E3, E4. auto.
Qed.

Lemma tracked_tick (c : Component) (r : Runtime) : tracked (c, r) → tracked (c, tick r).
Proof.
  intros (Hpos & Hnz & Htm & Hcmd). unfold tracked, commands in *. simpl in *.
  repeat split; auto.
  - destruct Htm as [-> | (h & d & -> & E)]; [now left|].
    rewrite filter_cons. case_decide; [right; eauto | now left].
  - intros cmd. rewrite fmap_app, elem_of_app. intros [H | H]; [auto|].
    rewrite <- list_fmap_compose in H. apply list_elem_of_fmap in H as (tm & -> & Hin).
    apply list_elem_of_filter in Hin as [_ Hin]. simpl.
    destruct Htm as [E | (h & d & E & _)]; rewrite E in Hin.
    + inversion Hin.
    + apply list_elem_of_singleton in Hin. now subst tm.
Qed.

Lemma tracked_step (w : World) (i : Input) : tracked w → tracked (step w i).
Proof.
  intros H. destruct w as [c r].
  destruct i as [ | | | e | | ]; simpl.
  - unfold onMounted. destruct (pc c); exact H.
  - unfold resume. destruct (pc c); exact H.
  - unfold onUnmounted.
    pose proof (tracked_clear c r H) as H'.
    rewrite (clearAutoHideTimer_tracked c r H) in *.
    revert H'. apply tracked_same; try reflexivity;
      simpl; destruct (unlistenStart c), (unlistenComplete c); reflexivity.
  - unfold dispatch. case_bool_decide; [|assumption].
    destruct e as [|o n].
    + apply tracked_clear. revert H. now apply tracked_same.
    + apply tracked_start. revert H. now apply tracked_same.
  - now apply tracked_tick.
  - assumption.
Qed.

Lemma tracked_run (inputs : list Input) (w : World) : tracked w → tracked (run inputs w).
Proof.
  revert w. induction inputs as [|i inputs IH]; intros w H; [assumption|].
  apply IH. now apply tracked_step.
Qed.

Lemma wait_S (k : nat) (w : World) : wait (S k) w = wait k (w.1, tick w.2).
Proof. reflexivity. Qed.

Lemma wait_end (k : nat) (w : World) : wait (S k) w = ((wait k w).1, tick (wait k w).2).
Proof.
  unfold wait, run. rewrite replicate_S_end, fold_left_app. reflexivity.
Qed.

(** While the one pending timeout is not due, time passes and nothing else
    changes. *)
Lemma wait_before_due (k : nat) (c : Component) (r : Runtime) (t : Timer) :
  timers r = [t] → now r + Z.of_nat k < due t →
  wait k (c, r) = (c, later (Z.of_nat k) r).
Proof.
  revert r. induction k as [|k IH]; intros r Ht Hdue.
  - unfold wait, later. simpl. destruct r; simpl. now rewrite Z.add_0_r.
  - rewrite wait_S. simpl fst. simpl snd.
    assert (tick r = later 1 r) as ->.
    { unfold tick, later. rewrite Ht. rewrite !filter_cons, !filter_nil.
      rewrite decide_True by lia. rewrite decide_False by lia.
      simpl. now rewrite app_nil_r. }
    rewrite IH; simpl; [| assumption | lia].
    unfold later. simpl. do 2 f_equal. lia.
Qed.

Lemma wait_no_timers (k : nat) (c : Component) (r : Runtime) :
  timers r = [] → wait k (c, r) = (c, later (Z.of_nat k) r).
Proof.
  revert r. induction k as [|k IH]; intros r Ht.
  - unfold wait, later. simpl. destruct r; simpl. now rewrite Z.add_0_r.
  - rewrite wait_S. simpl fst. simpl snd.
    assert (tick r = later 1 r) as ->.
    { unfold tick, later. rewrite Ht. simpl. now rewrite app_nil_r. }
    rewrite IH by assumption.
    unfold later. simpl. do 2 f_equal. lia.
Qed.

(** The pending timeout runs its callback in the millisecond it is due. *)
Lemma wait_until_due (k : nat) (c : Component) (r : Runtime) (t : Timer) :
  timers r = [t] → due t = now r + Z.of_nat (S k) →
  invoked (wait (S k) (c, r)).2 = invoked r ++ [(due t, command t)].
Proof.
  intros Ht Hdue. rewrite wait_end.
  rewrite (wait_before_due k c r t) by (assumption || lia).
  simpl. rewrite Ht, filter_cons, filter_nil. simpl.
  rewrite decide_True by lia. simpl. do 3 f_equal. lia.
Qed.

Example overlay_session :
  let w := run ([Mounted; Resolved; Resolved; Emit OptimizationStart;
                 Emit (OptimizationComplete 2000000 450000)] ++ replicate 5000 Tick) initial in
  render w.1 = ["✓"; "1.91 MB → 439.5 KB"] ∧ invoked w.2 = [(5000, "hide_progress")].
Proof. vm_compute. split; reflexivity. Qed.

(** C7: in every state the overlay can reach, a received
    optimization-complete event switches it to [finished], stores the two
    sizes of the payload and leaves exactly one timeout pending, due 5000 ms
    later, whose callback sends [hide_progress]: nothing is sent while
    fewer than 5000 ms have passed, and [hide_progress] is sent in the
    5000th.  A received optimization-start event switches it to [loading]
    and leaves no timeout pending, so nothing is sent however long one
    waits. *)
Theorem overlay_event_handling (inputs : list Input) (o n : Z) :
  let w := run inputs initial in
  ("optimization-complete" ∈ listeners w.2 →
     let w' := step w (Emit (OptimizationComplete o n)) in
     state w'.1 = finished ∧ originalSize w'.1 = o ∧ newSize w'.1 = n ∧
     timers w'.2 =
       [{| handle := nextHandle w.2; due := now w.2 + 5000; command := "hide_progress" |}] ∧
     (∀ k, Z.of_nat k < 5000 → invoked (wait k w').2 = invoked w.2) ∧
     (∀ k, Z.of_nat k = 5000 →
        invoked (wait k w').2 = invoked w.2 ++ [(now w.2 + 5000, "hide_progress")])) ∧
  ("optimization-start" ∈ listeners w.2 →
     let w' := step w (Emit OptimizationStart) in
     state w'.1 = loading ∧ timers w'.2 = [] ∧
     ∀ k, invoked (wait k w').2 = invoked w.2).
Proof.
  intros w. pose proof (tracked_run inputs initial tracked_initial) as Hw.
  fold w in Hw. destruct w as [c r]. simpl snd. split.
  - intros Hl w'. subst w'.
    change (step (c, r) (Emit (OptimizationComplete o n)))
      with (dispatch (OptimizationComplete o n) (c, r)).
    unfold dispatch. rewrite bool_decide_eq_true_2 by exact Hl.
    unfold onComplete.
    rewrite startAutoHideTimer_tracked by (revert Hw; now apply tracked_same).
    cbn [fst snd state originalSize newSize timers set_autoHideTimer].
    do 4 (split; [reflexivity|]). split.
    + intros k Hk.
      erewrite wait_before_due; [reflexivity | reflexivity | cbn [now due]; lia].
    + intros [|k] Hk; [lia|].
      erewrite (wait_until_due k); [|reflexivity|cbn [now due]; lia].
      reflexivity.
  - intros Hl w'. subst w'.
    change (step (c, r) (Emit OptimizationStart)) with (dispatch OptimizationStart (c, r)).
    unfold dispatch. rewrite bool_decide_eq_true_2 by exact Hl.
    unfold onStart.
    rewrite clearAutoHideTimer_tracked by (revert Hw; now apply tracked_same).
    cbn [fst snd state timers set_autoHideTimer no_timers].
    do 2 (split; [reflexivity|]).
    intros k. rewrite wait_no_timers by reflexivity. reflexivity.
Qed.

Lemma overlay_event_handling_witness :
  let w := run [Mounted; Resolved; Resolved] initial in
  "optimization-complete" ∈ listeners w.2 ∧
  "optimization-start" ∈ listeners w.2 ∧
  invoked (wait (Z.to_nat 5000) (step w (Emit (OptimizationComplete 2000000 450000)))).2 =
    invoked w.2 ++ [(now w.2 + 5000, "hide_progress")] ∧
  timers (step w (Emit OptimizationStart)).2 = [].
Proof.
  intros w.
  assert ("optimization-complete" ∈ listeners w.2) as Hc
    by (apply (bool_decide_unpack _); vm_compute; exact I).
  assert ("optimization-start" ∈ listeners w.2) as Hs
    by (apply (bool_decide_unpack _); vm_compute; exact I).
  split; [exact Hc|]. split; [exact Hs|].
  destruct (overlay_event_handling [Mounted; Resolved; Resolved] 2000000 450000) as [H1 H2].
  split.
  - apply (H1 Hc). apply Z2Nat.id. lia.
  - apply (H2 Hs).
Defined.

(** *** The commands the overlay sends *)

(** C8, as the code has it: the revert button and the function behind it
    are commented out.  A click in the overlay does nothing, and whatever
    happens to the overlay, the only command it ever sends is
    [hide_progress]; in particular it never sends [revert_clipboard]. *)
Theorem overlay_sends_only_hide_progress (inputs : list Input) :
  (∀ w, step w UserClick = w) ∧
  (∀ cmd, cmd ∈ commands (run inputs initial) → cmd = "hide_progress") ∧
  "revert_clipboard" ∉ commands (run inputs initial).
Proof.
  pose proof (tracked_run inputs initial tracked_initial) as (_ & _ & _ & H).
  split; [reflexivity|]. split; [exact H|].
  intros Hin. apply H in Hin. discriminate.
Qed.

Lemma overlay_sends_only_hide_progress_witness :
  let inputs := [Mounted; Resolved; Resolved; Emit (OptimizationComplete 2000000 450000)]
                ++ replicate 5000 Tick ++ [UserClick] in
  "hide_progress" ∈ commands (run inputs initial) ∧
  "revert_clipboard" ∉ commands (run inputs initial).
Proof.
  intros inputs. split.
  - apply (bool_decide_unpack _). vm_compute. exact I.
  - apply (overlay_sends_only_hide_progress inputs).
Defined.

(** C8, as the claim has it, fails: no sequence of mounts, events, timer
    ticks and clicks makes the overlay send [revert_clipboard]. *)
Lemma overlay_never_sends_revert_clipboard :
  ¬ ∃ inputs : list Input, "revert_clipboard" ∈ commands (run inputs initial).
Proof.
  intros [inputs Hin].
  pose proof (tracked_run inputs initial tracked_initial) as (_ & _ & _ & H).
  apply H in Hin. discriminate.
Qed.

End OverlayProofs.

(** * Properties of the settings panels *)

Module SettingsProofs.
Import Settings.

(** The newer panel: a toggle sends [set_auto_start] with the new value and
    writes [localStorage] after it, and only if the command resolved. *)
Lemma toggle_invokes_then_persists (ok : bool) (p : Panel) :
  let v := negb (autoStart p) in
  autoStart (toggle ok p) = v ∧
  trace (toggle ok p) =
    trace p ++ Invoke "set_auto_start" (Some v) ::
      (if ok then [SetItem "autoStart" (String_of_bool v)]
       else [ConsoleError "Failed to set auto-start:"]) ∧
  localStorage (toggle ok p) =
    (if ok then <["autoStart" := String_of_bool v]> (localStorage p) else localStorage p).
Proof.
  destruct p as [a th ls pd tl tr]. unfold toggle, assign_autoStart. simpl.
  rewrite bool_decide_eq_true_2 by (destruct a; discriminate).
  unfold flush_autoStart, onAutoStartChange. simpl.
  destruct ok; simpl; rewrite <- ?app_assoc; auto.
Qed.

(** Flushing a watcher only appends to the trace, and the auto-start
    watcher leaves [autoStart] alone. *)
Lemma flush_theme_keeps (changed : bool) (p : Panel) (e : Effect) :
  e ∈ trace p → e ∈ trace (flush_theme changed p).
Proof.
  intros H. destruct changed; [|exact H].
  unfold flush_theme, onThemeChange, setItem, applyTheme, emit.
  case_bool_decide; cbn; rewrite !elem_of_app; auto.
Qed.

Lemma flush_autoStart_keeps (changed ok : bool) (p : Panel) (e : Effect) :
  e ∈ trace p → e ∈ trace (flush_autoStart changed ok p).
Proof.
  intros H. destruct changed; [|exact H].
  unfold flush_autoStart, onAutoStartChange, setItem, emit.
  destruct ok; cbn; rewrite !elem_of_app; auto.
Qed.

Lemma flush_autoStart_value (changed ok : bool) (p : Panel) :
  autoStart (flush_autoStart changed ok p) = autoStart p.
Proof. destruct changed, ok; reflexivity. Qed.

(** The newer panel: on mount the toggle takes the value [get_auto_start]
    resolves to, and the command has been sent. *)
Lemma mount_reads_get_auto_start (b ok : bool) (p : Panel) :
  autoStart (onMounted (Some b) ok p) = b ∧
  Invoke "get_auto_start" None ∈ trace (onMounted (Some b) ok p).
Proof.
  unfold onMounted.
  destruct (localStorage p !! "theme") as [t|]; [case_bool_decide|];
    cbn [assign_theme assign_autoStart];
    (split;
     [ now rewrite flush_autoStart_value
     | apply flush_autoStart_keeps; cbn [add_theme_listener trace];
       apply flush_theme_keeps; unfold emit; cbn [trace];
       apply elem_of_app; right; constructor ]).
Qed.

Example settings_session :
  let p := run [Mount (Some false) true; ToggleAutoStart true; ToggleAutoStart false]
               (initial ∅ false) in
  autoStart p = false ∧
  trace p = [SetAttribute "data-theme" "light"; Invoke "get_auto_start" None;
             Invoke "set_auto_start" (Some true); SetItem "autoStart" "true";
             Invoke "set_auto_start" (Some false);
             ConsoleError "Failed to set auto-start:"].
Proof. vm_compute. split; reflexivity. Qed.

(** C9 on the panel of [src/App.vue]: a toggle there writes the new value
    to [localStorage] and sends no command, whatever the state of the panel;
    on mount the toggle is read from [localStorage].  Mounted on an empty
    storage and toggled once, the panel has produced exactly the write of
    the [data-theme] attribute and the write of "autoStart" = "true". *)
Theorem legacy_toggle_only_persists :
  (∀ p : Panel,
     trace (LegacySettings.toggle p) =
     trace p ++ [SetItem "autoStart" (String_of_bool (negb (autoStart p)))]) ∧
  (let p := LegacySettings.run [LegacySettings.Mount; LegacySettings.ToggleAutoStart]
              (initial ∅ false) in
   autoStart p = true ∧
   trace p = [SetAttribute "data-theme" "light"; SetItem "autoStart" "true"]) ∧
  (let p := LegacySettings.run [LegacySettings.Mount] (initial {["autoStart" := "true"]} false) in
   autoStart p = true ∧
   trace p = [SetAttribute "data-theme" "light"; SetItem "autoStart" "true"]).
Proof.
  split; [|split].
  - intros [a th ls pd tl tr]. unfold LegacySettings.toggle, assign_autoStart. simpl.
    rewrite bool_decide_eq_true_2 by (destruct a; discriminate).
    reflexivity.
  - vm_compute. split; reflexivity.
  - vm_compute. split; reflexivity.
Qed.

End SettingsProofs.

(** * Properties of the optimization pipeline *)

Module CoreProofs.
Import Core.

Example run_commits :
  let w := run halving_codec small_cfg
             [ExternalChange screenshot; Notify true; Advance true; Advance true;
              Advance true; Advance true] initial in
  phase w = Idle ∧
  emitted w = [OptimizationStart; OptimizationComplete 4 2] ∧
  clipboard w = {| content := {[ JPEG := [x89; x50] ]}; seq := 2 |} ∧
  lastWritten w = Some 2%nat.
Proof. vm_compute. repeat split; reflexivity. Qed.

Example run_skips_icon :
  let w := run halving_codec small_cfg
             [ExternalChange icon; Notify true; Advance true; Advance true] initial in
  phase w = Skipped ∧ emitted w = [OptimizationStart] ∧
  clipboard w = {| content := icon; seq := 1 |}.
Proof. vm_compute. repeat split; reflexivity. Qed.

Example run_suppresses_own_write :
  let w := run halving_codec small_cfg
             [ExternalChange screenshot; Notify true; Advance true; Advance true;
              Advance true; Advance true; Notify true; Advance true] initial in
  phase w = Idle ∧ emitted w = [OptimizationStart; OptimizationComplete 4 2].
Proof. vm_compute. repeat split; reflexivity. Qed.

Section Pipeline.

Variable codec : Codec.
Variable cfg : Config.

(** *** What every reachable state satisfies *)

Lemma from_read_read (cb : Clipboard) : from_read (read watched cb).
Proof.
  unfold from_read, formats, read. cbn [payload].
  intros f Hf. apply elem_of_dom in Hf as [buf Hf].
  apply map_lookup_filter_Some in Hf as [_ Hf]. exact Hf.
Qed.

Lemma consistent_initial : consistent initial.
Proof.
  unfold consistent. split_and!; cbn; try done.
  intros o n H. inversion H.
Qed.

(** Proves [consistent] of a state whose fields are, up to computation,
    those of a state known to be consistent. *)
Ltac carry_over H :=
  let H1 := fresh in let H2 := fresh in let H3 := fresh in let H4 := fresh in
  destruct H as (H1 & H2 & H3 & H4);
  unfold consistent; split_and!; cbn; solve [ auto | discriminate ].

Lemma consistent_accept (s : ClipboardSnapshot) (w : World) :
  from_read s → consistent w → consistent (accept s w).
Proof.
  intros Hs Hw. unfold accept.
  case_bool_decide; [carry_over Hw|].
  destruct (detect s); [|carry_over Hw].
  destruct Hw as (H1 & H2 & H3 & H4).
  unfold consistent. split_and!; cbn; auto.
  intros o n Hin. apply elem_of_app in Hin as [Hin | Hin]; [eauto|].
  apply list_elem_of_singleton in Hin. discriminate.
Qed.

Lemma consistent_advance (write_ok : bool) (w : World) :
  consistent w → consistent (advance codec cfg write_ok w).
Proof.
  intros Hw. unfold advance.
  destruct (phase w) as [|s|s c|s c r| |e] eqn:Hph.
  - destruct (pending w) as [s|] eqn:Hpe; [|assumption].
    apply consistent_accept; [apply Hw, Hpe|].
    destruct Hw as (H1 & H2 & H3 & H4).
    unfold consistent. split_and!; cbn; rewrite ?Hph; cbn; auto; discriminate.
  - assert (from_read s) as Hs by (destruct Hw as [H1 _]; now rewrite Hph in H1).
    destruct (detect s) as [f|]; [|carry_over Hw].
    destruct (skip_policy cfg f _); [carry_over Hw|].
    destruct (decode codec f _); carry_over Hw.
  - assert (from_read s) as Hs by (destruct Hw as [H1 _]; now rewrite Hph in H1).
    destruct (encode codec (rawPixels c)) as [b|]; [|carry_over Hw].
    destruct (Nat.ltb_spec (newSize {| encodedBytes := b; committed := false |}) (originalSize c));
      carry_over Hw.
  - destruct write_ok; [|carry_over Hw].
    destruct Hw as (H1 & H2 & H3 & H4). rewrite Hph in H1. destruct H1 as [Hs Hlt].
    unfold commit, consistent. split_and!; cbn; auto.
    + intros ss [= <-]. cbn. auto.
    + intros o n Hin. apply elem_of_app in Hin as [Hin | Hin]; [eauto|].
      apply list_elem_of_singleton in Hin. injection Hin as -> ->. exact Hlt.
  - carry_over Hw.
  - carry_over Hw.
Qed.

Lemma consistent_step (w : World) (i : Input) :
  consistent w → consistent (step codec cfg w i).
Proof.
  intros Hw. destruct i as [p | read_ok | write_ok | o | ms]; cbn [step].
  - exact Hw.
  - unfold notify. destruct read_ok; [|exact Hw].
    destruct Hw as (H1 & H2 & H3 & H4).
    unfold consistent. split_and!; cbn; auto.
    intros s [= <-]. apply from_read_read.
  - now apply consistent_advance.
  - unfold revert. destruct (session w) as [ss|]; [|exact Hw].
    destruct (live cfg w ss); [|exact Hw].
    destruct o; carry_over Hw.
  - exact Hw.
Qed.

Lemma consistent_run (inputs : list Input) (w : World) :
  consistent w → consistent (run codec cfg inputs w).
Proof.
  revert w. induction inputs as [|i inputs IH]; intros w Hw; [exact Hw|].
  apply IH. now apply consistent_step.
Qed.

(** *** The commit decision *)

Lemma write_changes_clipboard (b : bytes) (f : Format) (cb : Clipboard) : write b f cb ≠ cb.
Proof. destruct cb as [ct n]. unfold write, write_all. simpl. intros [= _ H]. lia. Qed.

(** C1, as the pipeline has it: for a run that has encoded its candidate to
    [b], the bytes are written back to the clipboard exactly when [b] is
    strictly smaller than the original and the adapter accepts the write,
    and then the completion event carries both sizes and the session holds
    the committed result.  If [b] is not smaller the run goes to [Skipped]
    and back to [Idle] with the clipboard and the events unchanged; if the
    write is rejected the run goes to [Failed], the clipboard unchanged. *)
Theorem commit_iff_smaller_and_accepted (w : World) (s : ClipboardSnapshot)
    (c : OptimizationCandidate) (b : bytes) (any write_ok : bool) :
  phase w = Encoding s c →
  encode codec (rawPixels c) = Some b →
  let w1 := advance codec cfg any w in
  let w2 := advance codec cfg write_ok w1 in
  (written_back b w w2 ↔ (length b < originalSize c)%nat ∧ write_ok = true) ∧
  (written_back b w w2 →
     emitted w2 = emitted w ++ [OptimizationComplete (originalSize c) (length b)] ∧
     ∃ ss, session w2 = Some ss ∧ originalSnapshot ss = s ∧
           encodedBytes (result ss) = b ∧ committed (result ss) = true) ∧
  ((originalSize c ≤ length b)%nat →
     phase w1 = Skipped ∧ phase w2 = Idle ∧
     clipboard w2 = clipboard w ∧ emitted w2 = emitted w) ∧
  ((length b < originalSize c)%nat → write_ok = false →
     phase w2 = Failed WriteFailure ∧ clipboard w2 = clipboard w ∧ emitted w2 = emitted w) ∧
  (∀ inputs o n,
     OptimizationComplete o n ∈ emitted (run codec cfg inputs initial) → (n < o)%nat).
Proof.
  intros Hph Henc w1 w2.
  enough ((written_back b w w2 ↔ (length b < originalSize c)%nat ∧ write_ok = true) ∧
          (written_back b w w2 →
             emitted w2 = emitted w ++ [OptimizationComplete (originalSize c) (length b)] ∧
             ∃ ss, session w2 = Some ss ∧ originalSnapshot ss = s ∧
                   encodedBytes (result ss) = b ∧ committed (result ss) = true) ∧
          ((originalSize c ≤ length b)%nat →
             phase w1 = Skipped ∧ phase w2 = Idle ∧
             clipboard w2 = clipboard w ∧ emitted w2 = emitted w) ∧
          ((length b < originalSize c)%nat → write_ok = false →
             phase w2 = Failed WriteFailure ∧ clipboard w2 = clipboard w ∧
             emitted w2 = emitted w)) as (H1 & H2 & H3 & H4).
  { split_and!; try assumption.
    intros inputs. apply (consistent_run inputs initial consistent_initial). }
  assert (w1 = set_phase (if (length b <? originalSize c)%nat
                          then Committing s c {| encodedBytes := b; committed := false |}
                          else Skipped) w) as Hw1.
  { subst w1. unfold advance. rewrite Hph, Henc. unfold newSize. cbn [encodedBytes].
    destruct (length b <? originalSize c)%nat; reflexivity. }
  subst w2. rewrite Hw1. clear Hw1 w1. unfold written_back.
  pose proof (write_changes_clipboard b JPEG (clipboard w)) as Hne.
  destruct (Nat.ltb_spec (length b) (originalSize c)) as [Hlt | Hge].
  - destruct write_ok; unfold advance; cbn.
    + unfold newSize. cbn. repeat split; eauto; lia.
    + repeat split; congruence || lia.
  - unfold advance. cbn. repeat split; congruence || lia.
Qed.



(** *** Snapshots without an image *)


(** *** Revert *)

(** C6: a revert without a live session (none, or one that the enforced
    expiry has ended) returns no error and changes nothing, whatever the
    adapter would have done with a write; the same holds for a revert that
    follows an accepted revert. *)
Theorem revert_without_live_session (w : World) (o : WriteOutcome) :
  (session w = None ∨ ∃ ss, session w = Some ss ∧ live cfg w ss = false) →
  revert cfg o w = (w, None) ∧
  revert cfg o (revert cfg Written w).1 = ((revert cfg Written w).1, None).
Proof.
  intros H.
  assert (revert cfg Written w = (w, None) ∧ revert cfg o w = (w, None)) as [E1 E2].
  { unfold revert. destruct H as [-> | (ss & -> & ->)]; split; reflexivity. }
  rewrite E1. cbn [fst]. split; exact E2.
Qed.

Lemma read_back (p : gmap Format bytes) (cb : Clipboard) :
  dom p ⊆ watched → payload (read watched (write_all p cb)) = p.
Proof.
  intros Hp. unfold read, write_all. cbn.
  apply map_filter_id. intros f buf Hf. cbn.
  apply Hp, elem_of_dom. eauto.
Qed.

(** *** Snapshots and the change counter *)













(** *** Failed runs *)

(** A transition of a run in flight either ends the run in [Idle] (the
    commit) or leaves the clipboard, the events, the session and the error
    log as they were; a failure it ends in is a decode, encode or write
    failure. *)
Lemma advance_in_flight (write_ok : bool) (w : World) :
  in_flight (phase w) →
  let w' := advance codec cfg write_ok w in
  phase w' = Idle ∨
  (clipboard w' = clipboard w ∧ emitted w' = emitted w ∧ session w' = session w ∧
   logged w' = logged w ∧
   ∀ e, phase w' = Failed e → e = DecodeFailure ∨ e = EncodeFailure ∨ e = WriteFailure).
Proof.
  intros Hfl w'. subst w'. unfold advance.
  destruct Hfl as [s | s c | s c r].
  - destruct (detect s) as [f|]; [|now left].
    right. destruct (skip_policy cfg f _); [|destruct (decode codec f _)];
      cbn; split_and!; try reflexivity; intros e [=]; auto.
  - right. destruct (encode codec (rawPixels c)) as [b|];
      [destruct (newSize _ <? originalSize c)%nat|];
      cbn; split_and!; try reflexivity; intros e [=]; auto.
  - destruct write_ok; [now left|].
    right. cbn. split_and!; try reflexivity. intros e [=]; auto.
Qed.

Lemma run_to_ended (w w' : World) :
  ¬ in_flight (phase w) → run_to codec cfg w w' → w' = w.
Proof. intros Hn H. destruct H as [|w w' write_ok Hfl _]; [reflexivity | contradiction]. Qed.

Lemma run_to_failed (w w' : World) (e : ErrorKind) :
  run_to codec cfg w w' → in_flight (phase w) → phase w' = Failed e →
  clipboard w' = clipboard w ∧ emitted w' = emitted w ∧ session w' = session w ∧
  logged w' = logged w ∧ (e = DecodeFailure ∨ e = EncodeFailure ∨ e = WriteFailure).
Proof.
  induction 1 as [w | w w' write_ok Hfl Hrun IH]; intros Hfl' Hfail.
  - rewrite Hfail in Hfl'. inversion Hfl'.
  - destruct (advance_in_flight write_ok w Hfl) as [Hidle | (Hc & He & Hs & Hl & Hk)].
    + apply run_to_ended in Hrun; [|rewrite Hidle; inversion 1].
      subst w'. congruence.
    + rewrite <- Hc, <- He, <- Hs, <- Hl.
      destruct (phase (advance codec cfg write_ok w)) eqn:Hph;
        try (apply IH; [constructor | exact Hfail]);
        (apply run_to_ended in Hrun; [|rewrite Hph; inversion 1]); subst w';
        split_and!; try reflexivity; congruence || (apply Hk; congruence).
Qed.

(** C5: a run that starts in [Evaluating] and ends in [Failed] has left the
    clipboard, the emitted events and the session as they were when it
    started; its error is a decode, encode or write failure; and the
    transition back to [Idle] emits nothing and leaves the clipboard alone,
    handing the error to the log. *)
Theorem failed_run_leaves_clipboard (w w' : World) (s : ClipboardSnapshot)
    (e : ErrorKind) (write_ok : bool) :
  phase w = Evaluating s →
  run_to codec cfg w w' →
  phase w' = Failed e →
  clipboard w' = clipboard w ∧ emitted w' = emitted w ∧ session w' = session w ∧
  (e = DecodeFailure ∨ e = EncodeFailure ∨ e = WriteFailure) ∧
  let w'' := advance codec cfg write_ok w' in
  phase w'' = Idle ∧ clipboard w'' = clipboard w ∧ emitted w'' = emitted w ∧
  session w'' = session w ∧ logged w'' = logged w ++ [e].
Proof.
  intros Hph Hrun Hfail.
  destruct (run_to_failed w w' e Hrun) as (Hc & He & Hs & Hl & Hk);
    [rewrite Hph; constructor | exact Hfail |].
  split_and!; try assumption.
  unfold advance. rewrite Hfail. cbn. rewrite Hl. now split_and!.
Qed.

(** *** Coalescing *)

Lemma run_app (a b : list Input) (w : World) :
  run codec cfg (a ++ b) w = run codec cfg b (run codec cfg a w).
Proof. apply fold_left_app. Qed.

(** Changes that arrive are put into the slot; nothing else moves. *)
Lemma changes_arrive (ps : list (gmap Format bytes)) (w : World) :
  let w' := run codec cfg (changes ps) w in
  phase w' = phase w ∧ emitted w' = emitted w ∧ dequeued w' = dequeued w ∧
  session w' = session w ∧ lastWritten w' = lastWritten w.
Proof.
  revert w. induction ps as [|p ps IH]; intros w; [now split_and!|].
  change (changes (p :: ps)) with ([ExternalChange p; Notify true] ++ changes ps).
  cbn zeta. rewrite run_app.
  destruct (IH (run codec cfg [ExternalChange p; Notify true] w)) as (H1 & H2 & H3 & H4 & H5).
  rewrite H1, H2, H3, H4, H5. now split_and!.
Qed.

Lemma run_advance_cons (o : bool) (os : list bool) (w : World) :
  run codec cfg (Advance <$> o :: os) w =
  run codec cfg (Advance <$> os) (advance codec cfg o w).
Proof. reflexivity. Qed.

Lemma advance_no_pending (write_ok : bool) (w : World) :
  pending w = None →
  pending (advance codec cfg write_ok w) = None ∧
  dequeued (advance codec cfg write_ok w) = dequeued w.
Proof.
  intros Hpe. unfold advance, commit. rewrite Hpe.
  repeat case_match; cbn; auto.
Qed.

Lemma advances_no_pending (oracles : list bool) (w : World) :
  pending w = None →
  dequeued (run codec cfg (Advance <$> oracles) w) = dequeued w.
Proof.
  revert w. induction oracles as [|o os IH]; intros w Hpe; [reflexivity|].
  destruct (advance_no_pending o w Hpe) as [H1 H2].
  rewrite run_advance_cons, IH; assumption.
Qed.

Lemma advance_busy (write_ok : bool) (w : World) :
  phase w ≠ Idle →
  pending (advance codec cfg write_ok w) = pending w ∧
  dequeued (advance codec cfg write_ok w) = dequeued w ∧
  (rank (phase (advance codec cfg write_ok w)) < rank (phase w))%nat.
Proof.
  intros Hph. unfold advance, commit.
  destruct (phase w); [congruence|..]; repeat case_match; cbn; split_and!; auto; lia.
Qed.

Lemma advance_dequeues (write_ok : bool) (w : World) (s : ClipboardSnapshot) :
  phase w = Idle → pending w = Some s →
  pending (advance codec cfg write_ok w) = None ∧
  dequeued (advance codec cfg write_ok w) = dequeued w ++ [s].
Proof.
  intros Hph Hpe. unfold advance, accept. rewrite Hph, Hpe.
  repeat case_match; cbn; auto.
Qed.

(** With a snapshot pending, transitions either have not reached the slot
    yet, and then each of them has used up one of the transitions the run in
    flight had left, or have taken exactly that snapshot. *)
Lemma advances_pending (oracles : list bool) (w : World) (s : ClipboardSnapshot) :
  pending w = Some s →
  let w' := run codec cfg (Advance <$> oracles) w in
  (dequeued w' = dequeued w ∧ (rank (phase w') + length oracles ≤ rank (phase w))%nat) ∨
  dequeued w' = dequeued w ++ [s].
Proof.
  revert w. induction oracles as [|o os IH]; intros w Hpe; [left; cbn; split; [reflexivity | lia]|].
  cbn zeta. rewrite run_advance_cons.
  destruct (phase w) eqn:Hph.
  1: { destruct (advance_dequeues o w s Hph Hpe) as [H1 H2].
       right. rewrite advances_no_pending by assumption. exact H2. }
  all: destruct (advance_busy o w) as (H1 & H2 & H3); [congruence|];
       rewrite Hph in H3;
       destruct (IH (advance codec cfg o w)) as [[Hd Hr] | Hd]; [congruence | |];
       [left; cbn [length]; split; [congruence | lia] | right; congruence].
Qed.








End Pipeline.

(** *** The theorems at concrete runs *)

(** The run on a four-byte PNG, up to the encoded result. *)
Lemma encoded_screenshot :
  let w := run halving_codec small_cfg
             [ExternalChange screenshot; Notify true; Advance true; Advance true] initial in
  phase w =
    Encoding {| payload := screenshot; sequenceId := 1 |}
      {| sourceFormat := PNG;
         rawPixels := {| width := 4; height := 1; channels := 1;
                         pixels := [x89; x50; x4e; x47] |};
         originalSize := 4 |} ∧
  clipboard w = {| content := screenshot; seq := 1 |}.
Proof. vm_compute. split; reflexivity. Qed.

Lemma commit_iff_smaller_and_accepted_witness :
  let w := run halving_codec small_cfg
             [ExternalChange screenshot; Notify true; Advance true; Advance true] initial in
  let s := {| payload := screenshot; sequenceId := 1 |} in
  let c := {| sourceFormat := PNG;
              rawPixels := {| width := 4; height := 1; channels := 1;
                              pixels := [x89; x50; x4e; x47] |};
              originalSize := 4 |} in
  let w2 := advance halving_codec small_cfg true (advance halving_codec small_cfg true w) in
  phase w = Encoding s c ∧
  encode halving_codec (rawPixels c) = Some [x89; x50] ∧
  (written_back [x89; x50] w w2 ↔ (length [x89; x50] < originalSize c)%nat ∧ true = true).
Proof.
  intros w s c w2.
  assert (phase w = Encoding s c) as H1 by apply encoded_screenshot.
  assert (encode halving_codec (rawPixels c) = Some [x89; x50]) as H2 by reflexivity.
  split_and!; [exact H1 | exact H2 |].
  apply (commit_iff_smaller_and_accepted halving_codec small_cfg w s c [x89; x50] true true H1 H2).
Defined.

(** C1, as the claim has it, fails when the adapter rejects the write: the
    four-byte PNG is encoded to two bytes, which is smaller, but the bytes
    are not written back; the run ends in [Failed] with the clipboard as it
    was. *)
Lemma rejected_write_is_not_written_back :
  let w := run halving_codec small_cfg
             [ExternalChange screenshot; Notify true; Advance true; Advance true] initial in
  let s := {| payload := screenshot; sequenceId := 1 |} in
  let c := {| sourceFormat := PNG;
              rawPixels := {| width := 4; height := 1; channels := 1;
                              pixels := [x89; x50; x4e; x47] |};
              originalSize := 4 |} in
  let b := [x89; x50] in
  let w2 := advance halving_codec small_cfg false (advance halving_codec small_cfg false w) in
  phase w = Encoding s c ∧
  encode halving_codec (rawPixels c) = Some b ∧
  phase w2 = Failed WriteFailure ∧
  clipboard w2 = clipboard w ∧
  ¬ (written_back b w w2 ↔ (length b < originalSize c)%nat).
Proof.
  intros w s c b w2.
  assert (clipboard w2 = clipboard w) as Hsame by (vm_compute; reflexivity).
  split_and!; [apply encoded_screenshot | reflexivity | vm_compute; reflexivity | exact Hsame |].
  intros [_ H].
  assert (length b < originalSize c)%nat as Hlt by (cbn; lia).
  apply H in Hlt. unfold written_back in Hlt. rewrite Hsame in Hlt.
  symmetry in Hlt. now apply write_changes_clipboard in Hlt.
Qed.




(** A format the pipeline does not read is not restored: a PNG copied
    together with a text is optimized and reverted with nothing else
    happening; the pipeline reads the clipboard as it did before the write,
    but the text is gone. *)
Example revert_loses_other_formats :
  let inputs := [ExternalChange captioned; Notify true; Advance true; Advance true;
                 Advance true] in
  let w := run halving_codec small_cfg inputs initial in
  let w2 := (revert small_cfg Written (advance halving_codec small_cfg true w)).1 in
  content (clipboard w) = captioned ∧
  content (clipboard w2) = screenshot ∧
  payload (read watched (clipboard w2)) = payload (read watched (clipboard w)).
Proof. vm_compute. split_and!; reflexivity. Qed.


Lemma failed_run_leaves_clipboard_witness :
  let w := run halving_codec small_cfg [ExternalChange screenshot; Notify true; Advance true]
             initial in
  let w' := run halving_codec small_cfg [Advance true; Advance true; Advance false] w in
  phase w = Evaluating {| payload := screenshot; sequenceId := 1 |} ∧
  run_to halving_codec small_cfg w w' ∧
  phase w' = Failed WriteFailure ∧
  clipboard w' = clipboard w ∧ emitted w' = emitted w.
Proof.
  intros w w'.
  assert (phase w = Evaluating {| payload := screenshot; sequenceId := 1 |}) as H1
    by (vm_compute; reflexivity).
  assert (run_to halving_codec small_cfg w w') as H2.
  { apply run_to_step with (write_ok := true); [vm_compute; constructor|].
    apply run_to_step with (write_ok := true); [vm_compute; constructor|].
    apply run_to_step with (write_ok := false); [vm_compute; constructor|].
    apply run_to_here. }
  assert (phase w' = Failed WriteFailure) as H3 by (vm_compute; reflexivity).
  split_and!; [exact H1 | exact H2 | exact H3 | ..];
    apply (failed_run_leaves_clipboard halving_codec small_cfg w w' _ WriteFailure true H1 H2 H3).
Defined.

Example failed_decode :
  let w := run no_decoder small_cfg
             [ExternalChange screenshot; Notify true; Advance true; Advance true] initial in
  phase w = Failed DecodeFailure ∧ emitted w = [OptimizationStart] ∧
  clipboard w = {| content := screenshot; seq := 1 |}.
Proof. vm_compute. split_and!; reflexivity. Qed.

Example failed_encode :
  let w := run no_encoder small_cfg
             [ExternalChange screenshot; Notify true; Advance true; Advance true; Advance true]
             initial in
  phase w = Failed EncodeFailure ∧ emitted w = [OptimizationStart] ∧
  clipboard w = {| content := screenshot; seq := 1 |}.
Proof. vm_compute. split_and!; reflexivity. Qed.

Example skipped_when_not_smaller :
  let w := run growing_codec small_cfg
             [ExternalChange screenshot; Notify true; Advance true; Advance true; Advance true]
             initial in
  phase w = Skipped ∧ emitted w = [OptimizationStart] ∧
  clipboard w = {| content := screenshot; seq := 1 |}.
Proof. vm_compute. split_and!; reflexivity. Qed.

Lemma revert_without_live_session_witness :
  (session initial = None ∨
   ∃ ss, session initial = Some ss ∧ live small_cfg initial ss = false) ∧
  revert small_cfg (Rejected {| content := text_only; seq := 7 |}) initial = (initial, None).
Proof.
  assert (session initial = None ∨
          ∃ ss, session initial = Some ss ∧ live small_cfg initial ss = false) as H
    by (left; reflexivity).
  split; [exact H|].
  apply (revert_without_live_session small_cfg initial _ H).
Defined.

Example revert_after_expiry :
  let w := run halving_codec small_cfg
             [ExternalChange screenshot; Notify true; Advance true; Advance true;
              Advance true; Advance true; Elapse 5001] initial in
  revert small_cfg Written w = (w, None) ∧
  content (clipboard w) = {[ JPEG := [x89; x50] ]}.
Proof. vm_compute. split; reflexivity. Qed.

End CoreProofs.

(** * Further properties of the overlay *)

Module OverlayExtras.
Import Overlay OverlayProofs.

(** *** How often [hide_progress] is sent *)

Lemma filter_split_length {A} (P : A → Prop) `{∀ x, Decision (P x)} (l : list A) :
  (length (filter P l) + length (filter (λ x, ¬ P x) l) = length l)%nat.
Proof.
  rewrite <- length_app. apply Permutation_length, filter_app_complement.
Qed.

Lemma sends_step (w : World) (i : Input) :
  tracked w →
  (length (invoked (step w i).2) + length (timers (step w i).2) ≤
   length (invoked w.2) + length (timers w.2) + (if is_completion i then 1 else 0))%nat.
Proof.
  intros Hw. destruct w as [c r].
  destruct i as [ | | | e | | ]; cbn [step is_completion fst snd].
  - unfold onMounted. destruct (pc c); cbn; lia.
  - unfold resume. destruct (pc c); cbn; lia.
  - unfold onUnmounted. rewrite (clearAutoHideTimer_tracked c r Hw).
    cbn. destruct (unlistenStart c), (unlistenComplete c); cbn; lia.
  - unfold dispatch. case_bool_decide; [|destruct e; cbn; lia].
    destruct e as [|o n]; cbn [is_completion].
    + unfold onStart. rewrite clearAutoHideTimer_tracked by (revert Hw; now apply tracked_same).
      cbn. lia.
    + unfold onComplete. rewrite startAutoHideTimer_tracked by (revert Hw; now apply tracked_same).
      cbn. lia.
  - unfold tick. cbn [invoked timers]. rewrite length_app, length_fmap.
    pose proof (filter_split_length (λ tm, now r + 1 < due tm) (timers r)). lia.
  - lia.
Qed.

Lemma sends_run (inputs : list Input) (w : World) :
  tracked w →
  (length (invoked (run inputs w).2) + length (timers (run inputs w).2) ≤
   length (invoked w.2) + length (timers w.2) + completions inputs)%nat.
Proof.
  revert w. induction inputs as [|i inputs IH]; intros w Hw; [cbn; lia|].
  change (run (i :: inputs) w) with (run inputs (step w i)).
  pose proof (IH (step w i) (tracked_step w i Hw)) as H1.
  pose proof (sends_step w i Hw) as H2.
  unfold completions in *. cbn [List.filter]. destruct (is_completion i); cbn [length]; lia.
Qed.

(** Whatever happens to the overlay, it has sent [hide_progress] at most
    once for each optimization-complete event in its input, the timeout
    that may still be pending counted in. *)
Theorem one_hide_per_completion (inputs : list Input) :
  let w := run inputs initial in
  (length (commands w) + length (timers w.2) ≤ completions inputs)%nat.
Proof.
  intros w. pose proof (sends_run inputs initial tracked_initial) as H.
  fold w in H. unfold commands. rewrite length_fmap. cbn in H. lia.
Qed.

(** *** A completion that follows a completion *)

(** A second optimization-complete event that arrives [k] < 5000 ms after
    the first replaces the sizes shown and restarts the delay: the one
    timeout pending is due 5000 ms after the second event, nothing is sent
    before that, and [hide_progress] is sent once, then. *)
Theorem completion_restarts_delay (inputs : list Input) (o1 n1 o2 n2 : Z) (k : nat) :
  let w := run inputs initial in
  "optimization-complete" ∈ listeners w.2 →
  Z.of_nat k < 5000 →
  let w' := run ([Emit (OptimizationComplete o1 n1)] ++ replicate k Tick ++
                 [Emit (OptimizationComplete o2 n2)]) w in
  originalSize w'.1 = o2 ∧ newSize w'.1 = n2 ∧ state w'.1 = finished ∧
  invoked w'.2 = invoked w.2 ∧
  (∃ h, timers w'.2 =
        [{| handle := h; due := now w.2 + Z.of_nat k + 5000; command := "hide_progress" |}]) ∧
  (∀ j, Z.of_nat j < 5000 → invoked (wait j w').2 = invoked w.2) ∧
  (∀ j, Z.of_nat j = 5000 →
     invoked (wait j w').2 =
     invoked w.2 ++ [(now w.2 + Z.of_nat k + 5000, "hide_progress")]).
Proof.
  intros w Hl Hk w'.
  pose proof (tracked_run inputs initial tracked_initial) as Hw. fold w in Hw.
  destruct w as [c r]. cbn [snd] in *.
  set (c1 := {| state := finished; originalSize := o1; newSize := n1;
                autoHideTimer := autoHideTimer c; unlistenStart := unlistenStart c;
                unlistenComplete := unlistenComplete c; pc := pc c |}).
  assert (step (c, r) (Emit (OptimizationComplete o1 n1)) = startAutoHideTimer (c1, r)) as E1.
  { cbn [step]. unfold dispatch. now rewrite bool_decide_eq_true_2 by exact Hl. }
  assert (tracked (c1, r)) as Hc1 by (revert Hw; now apply tracked_same).
  rewrite (startAutoHideTimer_tracked c1 r Hc1) in E1.
  subst w'. unfold run. rewrite !fold_left_app. fold (run [Emit (OptimizationComplete o1 n1)] (c, r)).
  change (run [Emit (OptimizationComplete o1 n1)] (c, r))
    with (step (c, r) (Emit (OptimizationComplete o1 n1))).
  rewrite E1.
  match goal with |- context [fold_left step (replicate k Tick) ?x] =>
    change (fold_left step (replicate k Tick) x) with (wait k x);
    assert (tracked x) as Hx by (rewrite <- E1; now apply tracked_step)
  end.
  erewrite wait_before_due in * |- *; [|reflexivity|cbn [now due]; lia].
  match goal with |- context [fold_left step [?e] (?c2, ?r2)] =>
    change (fold_left step [e] (c2, r2)) with (dispatch (OptimizationComplete o2 n2) (c2, r2));
    assert (tracked (c2, r2)) as H2
      by (revert Hx; apply tracked_same; reflexivity)
  end.
  unfold dispatch. rewrite bool_decide_eq_true_2 by exact Hl.
  unfold onComplete. rewrite startAutoHideTimer_tracked by (revert H2; now apply tracked_same).
  cbn [fst snd state originalSize newSize timers invoked set_autoHideTimer later now nextHandle].
  do 4 (split; [reflexivity|]). split; [eauto|]. split.
  - intros j Hj.
    erewrite wait_before_due; [reflexivity | reflexivity | cbn [now due]; lia].
  - intros [|j] Hj; [lia|].
    erewrite (wait_until_due j); [|reflexivity|cbn [now due]; lia].
    reflexivity.
Qed.

Lemma completion_restarts_delay_witness :
  let w := run [Mounted; Resolved; Resolved] initial in
  let w' := run ([Emit (OptimizationComplete 2000000 450000)] ++ replicate 3000 Tick ++
                 [Emit (OptimizationComplete 900000 300000)]) w in
  "optimization-complete" ∈ listeners w.2 ∧ Z.of_nat 3000 < 5000 ∧
  originalSize w'.1 = 900000 ∧
  invoked (wait (Z.to_nat 5000) w').2 = invoked w.2 ++ [(now w.2 + Z.of_nat 3000 + 5000, "hide_progress")].
Proof.
  intros w w'.
  assert ("optimization-complete" ∈ listeners w.2) as Hl
    by (apply (bool_decide_unpack _); vm_compute; exact I).
  assert (Z.of_nat 3000 < 5000) as Hk by (vm_compute; reflexivity).
  destruct (completion_restarts_delay [Mounted; Resolved; Resolved]
              2000000 450000 900000 300000 3000 Hl Hk) as (H1 & _ & _ & _ & _ & _ & H2).
  split_and!; [exact Hl | exact Hk | exact H1 |].
  apply H2. apply Z2Nat.id. lia.
Defined.

(** *** Unmounting *)

Lemma hooked_step (w : World) (i : Input) : tracked w → hooked w → hooked (step w i).
Proof.
  intros Ht [H1 H2]. destruct w as [c r]. unfold hooked in *. cbn [fst] in *.
  destruct i as [ | | | e | | ]; cbn [step].
  - unfold onMounted. destruct (pc c) eqn:E; cbn; (split; [intros E1 | intros E2]);
      try discriminate; try congruence;
      try (apply H1; reflexivity); try (apply H2; reflexivity).
  - unfold resume. destruct (pc c) eqn:E; cbn; (split; [intros E1 | intros E2]);
      try discriminate; try congruence;
      try (apply H1; reflexivity); try (apply H2; reflexivity).
    split; [now apply H1 | reflexivity].
  - unfold onUnmounted. rewrite (clearAutoHideTimer_tracked c r Ht). cbn. auto.
  - unfold dispatch. case_bool_decide; [|cbn; auto].
    destruct e as [|o n].
    + unfold onStart. rewrite clearAutoHideTimer_tracked by (revert Ht; now apply tracked_same).
      cbn. auto.
    + unfold onComplete. rewrite startAutoHideTimer_tracked by (revert Ht; now apply tracked_same).
      cbn. auto.
  - cbn. auto.
  - cbn. auto.
Qed.

Lemma hooked_run (inputs : list Input) (w : World) :
  tracked w → hooked w → hooked (run inputs w).
Proof.
  revert w. induction inputs as [|i inputs IH]; intros w Ht Hh; [exact Hh|].
  apply IH; [now apply tracked_step | now apply hooked_step].
Qed.

Lemma hooked_initial : hooked initial.
Proof. split; discriminate. Qed.

(** Once unmounted, a mounted overlay stays as it is under every input. *)
Lemma unmounted_step (w : World) (i : Input) :
  tracked w → unmounted w →
  unmounted (step w i) ∧ invoked (step w i).2 = invoked w.2 ∧
  state (step w i).1 = state w.1 ∧ originalSize (step w i).1 = originalSize w.1 ∧
  newSize (step w i).1 = newSize w.1.
Proof.
  intros Ht (Hpc & Htm & Hs & Hc). destruct w as [c r]. unfold unmounted. cbn [fst snd] in *.
  destruct i as [ | | | e | | ]; cbn [step].
  - unfold onMounted. rewrite Hpc. cbn. now split_and!.
  - unfold resume. rewrite Hpc. cbn. now split_and!.
  - unfold onUnmounted. rewrite (clearAutoHideTimer_tracked c r Ht). cbn.
    split_and!; try done; destruct (unlistenStart c), (unlistenComplete c); cbn;
      rewrite ?elem_of_difference; tauto.
  - unfold dispatch. rewrite bool_decide_eq_false_2; [cbn; now split_and!|].
    destruct e; assumption.
  - cbn. rewrite Htm. cbn. rewrite app_nil_r. now split_and!.
  - cbn. now split_and!.
Qed.

(** After [onUnmounted] has run on a fully mounted overlay, nothing that
    happens to it changes what it shows or makes it send a command: the
    timeout is cancelled, both listeners are removed, and later events,
    elapsed time, clicks and hooks leave the state, the sizes and the sent
    commands as they were. *)
Theorem unmount_silences (inputs later : list Input) :
  let w := run inputs initial in
  pc w.1 = MountDone →
  let w' := run later (step w Unmounted) in
  unmounted w' ∧ invoked w'.2 = invoked w.2 ∧ state w'.1 = state w.1 ∧
  originalSize w'.1 = originalSize w.1 ∧ newSize w'.1 = newSize w.1.
Proof.
  intros w Hpc w'.
  pose proof (tracked_run inputs initial tracked_initial) as Ht.
  pose proof (hooked_run inputs initial tracked_initial hooked_initial) as [_ Hh].
  fold w in Ht, Hh. destruct (Hh Hpc) as [Hus Huc].
  assert (unmounted (step w Unmounted) ∧ invoked (step w Unmounted).2 = invoked w.2 ∧
          state (step w Unmounted).1 = state w.1 ∧
          originalSize (step w Unmounted).1 = originalSize w.1 ∧
          newSize (step w Unmounted).1 = newSize w.1) as H0.
  { destruct w as [c r]. cbn [step fst snd] in *. unfold onUnmounted, unmounted.
    rewrite (clearAutoHideTimer_tracked c r Ht). cbn. rewrite Hus, Huc. cbn.
    split_and!; try done; rewrite !elem_of_difference, !elem_of_singleton; intuition congruence. }
  pose proof (tracked_step w Unmounted Ht) as Ht0.
  subst w'. revert H0 Ht0. generalize (step w Unmounted) as u.
  induction later as [|i later IH]; intros u H0 Ht0; [exact H0|].
  destruct H0 as (Hu & E1 & E2 & E3 & E4).
  destruct (unmounted_step u i Ht0 Hu) as (Hu' & F1 & F2 & F3 & F4).
  change (run (i :: later) u) with (run later (step u i)).
  apply IH; [|now apply tracked_step].
  split_and!; [exact Hu' | congruence..].
Qed.

Lemma unmount_silences_witness :
  let w := run [Mounted; Resolved; Resolved; Emit (OptimizationComplete 2000000 450000)]
             initial in
  let w' := run ([Emit OptimizationStart; Emit (OptimizationComplete 1 1)] ++
                 replicate (Z.to_nat 6000) Tick) (step w Unmounted) in
  pc w.1 = MountDone ∧ invoked w'.2 = [] ∧ state w'.1 = finished ∧
  originalSize w'.1 = 2000000.
Proof.
  intros w w'.
  assert (pc w.1 = MountDone) as Hpc by (vm_compute; reflexivity).
  destruct (unmount_silences
              [Mounted; Resolved; Resolved; Emit (OptimizationComplete 2000000 450000)]
              ([Emit OptimizationStart; Emit (OptimizationComplete 1 1)] ++
               replicate (Z.to_nat 6000) Tick)
              Hpc) as (_ & H1 & H2 & H3 & _).
  split_and!; [exact Hpc | exact H1 | exact H2 | exact H3].
Defined.



(** *** The range of the formatted sizes *)

Lemma formatSize_KB_digits (size : Z) :
  1024 <= size < 1048576 →
  formatSize size =
  Js.number_to_string ((20 * size + 1024) / 2048 / 10) +:+ "." +:+
  Js.number_to_string (((20 * size + 1024) / 2048) mod 10) +:+ " KB".
Proof.
  intros H. unfold formatSize.
  destruct (Z.ltb_spec size 1024); [lia|].
  destruct (Z.ltb_spec size (1024 * 1024)); [|lia].
  rewrite toFixed_KB by (unfold Js.MAX_SAFE_INTEGER; lia).
  unfold Js.fixed_digits. rewrite tenths_of_KB. change (10 ^ Z.of_nat 1) with 10.
  rewrite pad_one_digit by (apply Z.mod_pos_bound; lia).
  now rewrite !append_assoc.
Qed.

(** What [formatSize] can show.  From 1024 up to 1048524 bytes it shows a
    value from 1.0 to 1023.9 KB; a whole number [k] of KiB shows as [k]
    followed by ".0 KB"; the last 51 sizes below 1 MiB round up to
    "1024.0 KB" and are not shown in MB; from 1048576 bytes on the value
    shown is at least 1.00 MB. *)
Theorem formatSize_range (size : Z) :
  (1024 <= size < 1048525 →
     ∃ n : Z, 10 <= n < 10240 ∧
       formatSize size =
       Js.number_to_string (n / 10) +:+ "." +:+ Js.number_to_string (n mod 10) +:+ " KB") ∧
  (∀ k, 1 <= k < 1024 → size = 1024 * k →
     formatSize size = Js.number_to_string k +:+ ".0 KB") ∧
  (1048525 <= size < 1048576 → formatSize size = "1024.0 KB") ∧
  (1048576 <= size <= Js.MAX_SAFE_INTEGER →
     ∃ n : Z, 100 <= n ∧
       formatSize size =
       Js.number_to_string (n / 100) +:+ "." +:+ Js.number_to_string (n / 10 mod 10) +:+
       Js.number_to_string (n mod 10) +:+ " MB").
Proof.
  split_and!.
  - intros H. exists ((20 * size + 1024) / 2048). split.
    + Z.div_mod_to_equations. lia.
    + apply formatSize_KB_digits. lia.
  - intros k Hk ->. rewrite formatSize_KB_digits by lia.
    replace ((20 * (1024 * k) + 1024) / 2048) with (10 * k)
      by (Z.div_mod_to_equations; lia).
    replace (10 * k / 10) with k by (Z.div_mod_to_equations; lia).
    replace ((10 * k) mod 10) with 0 by (Z.div_mod_to_equations; lia).
    reflexivity.
  - intros H. rewrite formatSize_KB_digits by lia.
    replace ((20 * size + 1024) / 2048) with 10240 by (Z.div_mod_to_equations; lia).
    vm_compute. reflexivity.
  - intros H. exists ((200 * size + 1048576) / 2097152). split.
    + Z.div_mod_to_equations. lia.
    + unfold formatSize.
      destruct (Z.ltb_spec size 1024); [lia|].
      destruct (Z.ltb_spec size (1024 * 1024)); [lia|].
      rewrite toFixed_MB by lia. unfold Js.fixed_digits.
      rewrite hundredths_of_MB. change (10 ^ Z.of_nat 2) with 100.
      set (n := (200 * size + 1048576) / 2097152).
      rewrite pad_two_digits by (apply Z.mod_pos_bound; lia).
      replace (n mod 100 / 10) with (n / 10 mod 10) by (Z.div_mod_to_equations; lia).
      replace (n mod 100 mod 10) with (n mod 10) by (Z.div_mod_to_equations; lia).
      now rewrite !append_assoc.
Qed.

Lemma formatSize_range_witness :
  1048525 <= 1048550 < 1048576 ∧ formatSize 1048550 = "1024.0 KB" ∧
  (1 <= 512 < 1024 → formatSize (1024 * 512) = "512.0 KB").
Proof.
  assert (1048525 <= 1048550 < 1048576) as H by lia.
  destruct (formatSize_range 1048550) as (_ & _ & H1 & _).
  destruct (formatSize_range (1024 * 512)) as (_ & H2 & _).
  split; [exact H|]. split; [exact (H1 H)|].
  intros Hk. apply (H2 512 Hk eq_refl).
Defined.

End OverlayExtras.

(** * Further properties of the settings panels *)

Module SettingsExtras.
Import Settings.

(** *** What the mount hook sends *)

Lemma invocations_emit (e : Effect) (p : Panel) :
  invocations (emit e p) = invocations p ++ (if is_invoke e then [e] else []).
Proof. unfold invocations, emit. cbn. now rewrite List.filter_app. Qed.

Lemma invocations_setItem (k v : string) (p : Panel) :
  invocations (setItem k v p) = invocations p.
Proof. unfold setItem. rewrite invocations_emit. cbn. apply app_nil_r. Qed.

Lemma invocations_applyTheme (t : string) (p : Panel) :
  invocations (applyTheme t p) = invocations p.
Proof.
  unfold applyTheme. case_bool_decide; rewrite invocations_emit; apply app_nil_r.
Qed.

Lemma invocations_flush_theme (changed : bool) (p : Panel) :
  invocations (flush_theme changed p) = invocations p.
Proof.
  destruct changed; [|reflexivity]. unfold flush_theme, onThemeChange.
  now rewrite invocations_setItem, invocations_applyTheme.
Qed.

Lemma invocations_flush_autoStart (changed ok : bool) (p : Panel) :
  invocations (flush_autoStart changed ok p) =
  invocations p ++ (if changed then [Invoke "set_auto_start" (Some (autoStart p))] else []).
Proof.
  destruct changed; [|symmetry; apply app_nil_r].
  unfold flush_autoStart, onAutoStartChange.
  destruct ok; [rewrite invocations_setItem|]; rewrite !invocations_emit; cbn;
    now rewrite ?app_nil_r.
Qed.

Lemma applyTheme_fields (t : string) (p : Panel) :
  autoStart (applyTheme t p) = autoStart p ∧ theme (applyTheme t p) = theme p ∧
  localStorage (applyTheme t p) = localStorage p ∧
  prefersDark (applyTheme t p) = prefersDark p ∧
  themeListener (applyTheme t p) = themeListener p.
Proof. unfold applyTheme. case_bool_decide; now split_and!. Qed.

(** Flushing the theme watcher writes at most the key "theme". *)
Lemma flush_theme_fields (changed : bool) (p : Panel) :
  autoStart (flush_theme changed p) = autoStart p ∧
  theme (flush_theme changed p) = theme p ∧
  prefersDark (flush_theme changed p) = prefersDark p ∧
  themeListener (flush_theme changed p) = themeListener p ∧
  localStorage (flush_theme changed p) =
    (if changed then <["theme" := theme p]> (localStorage p) else localStorage p).
Proof.
  destruct changed; [|now split_and!].
  unfold flush_theme, onThemeChange, setItem, emit.
  destruct (applyTheme_fields (theme p) p) as (H1 & H2 & H3 & H4 & H5).
  cbn [autoStart theme prefersDark themeListener localStorage].
  rewrite H1, H2, H3, H4, H5. now split_and!.
Qed.

(** The theme part of the mount hook touches neither the toggle nor what is
    stored under "autoStart", and sends nothing. *)
Lemma mount_theme_part (p : Panel) :
  let '(p1, changedTheme) :=
    match localStorage p !! "theme" with
    | Some savedTheme =>
        if bool_decide (savedTheme ≠ "") then assign_theme savedTheme p else (p, false)
    | None => (p, false)
    end in
  let q := flush_theme changedTheme
             (emit (Invoke "get_auto_start" None) (applyTheme (theme p1) p1)) in
  autoStart q = autoStart p ∧
  localStorage q !! "autoStart" = localStorage p !! "autoStart" ∧
  invocations q = invocations p ++ [Invoke "get_auto_start" None].
Proof.
  assert (∀ p1 ch, autoStart p1 = autoStart p → localStorage p1 = localStorage p →
            invocations p1 = invocations p →
            let q := flush_theme ch
                       (emit (Invoke "get_auto_start" None) (applyTheme (theme p1) p1)) in
            autoStart q = autoStart p ∧
            localStorage q !! "autoStart" = localStorage p !! "autoStart" ∧
            invocations q = invocations p ++ [Invoke "get_auto_start" None]) as H.
  { intros p1 ch Ea El Ei q. subst q.
    destruct (flush_theme_fields ch
                (emit (Invoke "get_auto_start" None) (applyTheme (theme p1) p1)))
      as (H1 & _ & _ & _ & H5).
    destruct (applyTheme_fields (theme p1) p1) as (G1 & _ & G3 & _).
    rewrite H1, H5, invocations_flush_theme, invocations_emit, invocations_applyTheme.
    cbn [autoStart localStorage emit is_invoke]. rewrite G1, G3, Ea, El, Ei.
    split_and!; [reflexivity | | reflexivity].
    destruct ch; [|reflexivity]. now rewrite lookup_insert_ne. }
  destruct (localStorage p !! "theme") as [t|]; [case_bool_decide|];
    cbn [assign_theme]; apply H; reflexivity.
Qed.

(** On mount the newer panel sends [get_auto_start] once.  When the command
    fails, the toggle keeps its value and nothing else is sent.  When it
    resolves to the value the toggle already has, nothing else is sent
    either.  When it resolves to another value, the toggle takes it and the
    watcher sends [set_auto_start] with the value just read; the value is
    stored under "autoStart" only if that command succeeds. *)
Theorem mount_auto_start_commands (reply : option bool) (ok : bool) (p : Panel) :
  let q := onMounted reply ok p in
  invocations q =
    invocations p ++ Invoke "get_auto_start" None ::
      match reply with
      | Some b =>
          if bool_decide (b ≠ autoStart p) then [Invoke "set_auto_start" (Some b)] else []
      | None => []
      end ∧
  autoStart q = default (autoStart p) reply ∧
  localStorage q !! "autoStart" =
    match reply with
    | Some b =>
        if bool_decide (b ≠ autoStart p) && ok then Some (String_of_bool b)
        else localStorage p !! "autoStart"
    | None => localStorage p !! "autoStart"
    end.
Proof.
  intros q. subst q. unfold onMounted.
  pose proof (mount_theme_part p) as H.
  destruct (match localStorage p !! "theme" with
            | Some savedTheme =>
                if bool_decide (savedTheme ≠ "") then assign_theme savedTheme p else (p, false)
            | None => (p, false)
            end) as [p1 changedTheme].
  set (p4 := flush_theme changedTheme
               (emit (Invoke "get_auto_start" None) (applyTheme (theme p1) p1))) in *.
  destruct H as (Ha & Hl & Hi).
  destruct reply as [b|]; cbn [assign_autoStart default].
  - rewrite invocations_flush_autoStart. cbn [autoStart add_theme_listener].
    rewrite Ha. unfold invocations at 1. cbn [trace add_theme_listener].
    fold (invocations p4). rewrite Hi, <- app_assoc. cbn [app].
    split_and!; [reflexivity | |].
    + unfold flush_autoStart, onAutoStartChange, setItem, emit.
      case_bool_decide; destruct ok; reflexivity.
    + unfold flush_autoStart, onAutoStartChange, setItem, emit.
      case_bool_decide; destruct ok; cbn; rewrite ?lookup_insert_eq; auto.
  - cbn [flush_autoStart]. unfold invocations at 1. cbn [trace add_theme_listener emit].
    rewrite List.filter_app. cbn. rewrite app_nil_r. fold (invocations p4).
    rewrite Hi. now split_and!.
Qed.

(** *** The theme *)

Lemma onMounted_split (reply : option bool) (ok : bool) (p : Panel) :
  onMounted reply ok p = mount_autoStart reply ok (mount_theme p).
Proof.
  unfold onMounted, mount_autoStart, mount_theme.
  destruct (localStorage p !! "theme") as [t|]; [case_bool_decide|]; reflexivity.
Qed.

Lemma data_theme_snoc (tr : list Effect) (e : Effect) :
  data_theme (tr ++ [e]) =
  match e with
  | SetAttribute name v => if bool_decide (name = "data-theme") then Some v
                           else data_theme tr
  | _ => data_theme tr
  end.
Proof. unfold data_theme. now rewrite fold_left_app. Qed.

Lemma data_theme_emit (e : Effect) (p : Panel) :
  data_theme (trace (emit e p)) =
  match e with
  | SetAttribute name v => if bool_decide (name = "data-theme") then Some v
                           else data_theme (trace p)
  | _ => data_theme (trace p)
  end.
Proof. unfold data_theme, emit. cbn [trace]. now rewrite fold_left_app. Qed.

Lemma data_theme_applyTheme (p : Panel) :
  data_theme (trace (applyTheme (theme p) p)) = Some (effective_theme p).
Proof.
  unfold applyTheme, effective_theme.
  case_bool_decide; rewrite data_theme_emit; reflexivity.
Qed.

Lemma data_theme_onThemeChange (p : Panel) :
  data_theme (trace (onThemeChange (theme p) p)) =
  Some (effective_theme (onThemeChange (theme p) p)).
Proof.
  unfold onThemeChange, setItem. rewrite data_theme_emit. cbn [trace].
  rewrite data_theme_applyTheme. unfold effective_theme. cbn [theme prefersDark emit].
  destruct (applyTheme_fields (theme p) p) as (_ & K2 & _ & K4 & _).
  now rewrite K2, K4.
Qed.

(** What the theme part of the mount hook leaves behind. *)
Lemma mount_theme_fields (p : Panel) :
  let q := mount_theme p in
  theme q = restored_theme p ∧ autoStart q = autoStart p ∧
  prefersDark q = prefersDark p ∧ themeListener q = themeListener p ∧
  localStorage q =
    (if bool_decide (restored_theme p ≠ theme p)
     then <["theme" := restored_theme p]> (localStorage p) else localStorage p) ∧
  data_theme (trace q) = Some (effective_theme q).
Proof.
  assert (∀ p1 ch, autoStart p1 = autoStart p → localStorage p1 = localStorage p →
            prefersDark p1 = prefersDark p → themeListener p1 = themeListener p →
            let q := flush_theme ch
                       (emit (Invoke "get_auto_start" None) (applyTheme (theme p1) p1)) in
            theme q = theme p1 ∧ autoStart q = autoStart p ∧
            prefersDark q = prefersDark p ∧ themeListener q = themeListener p ∧
            localStorage q =
              (if ch then <["theme" := theme p1]> (localStorage p) else localStorage p) ∧
            data_theme (trace q) = Some (effective_theme q)) as H.
  { intros p1 ch Ea El Ed Et q. subst q.
    set (p3 := emit (Invoke "get_auto_start" None) (applyTheme (theme p1) p1)).
    destruct (applyTheme_fields (theme p1) p1) as (G1 & G2 & G3 & G4 & G5).
    assert (theme p3 = theme p1 ∧ autoStart p3 = autoStart p ∧ prefersDark p3 = prefersDark p ∧
            themeListener p3 = themeListener p ∧ localStorage p3 = localStorage p ∧
            data_theme (trace p3) = Some (effective_theme p3)) as (F1 & F2 & F3 & F4 & F5 & F6).
    { subst p3. cbn [theme autoStart prefersDark themeListener localStorage emit].
      rewrite G1, G2, G3, G4, G5, data_theme_emit, data_theme_applyTheme.
      unfold effective_theme. cbn [theme prefersDark emit]. rewrite G2, G4.
      split_and!; congruence. }
    destruct (flush_theme_fields ch p3) as (H1 & H2 & H3 & H4 & H5).
    rewrite H1, H2, H3, H4, H5, F1, F2, F3, F4, F5.
    split_and!; try reflexivity.
    destruct ch; [|unfold flush_theme; rewrite F6; unfold effective_theme; now rewrite F1, F3 ].
    unfold flush_theme. apply data_theme_onThemeChange. }
  unfold mount_theme, restored_theme.
  destruct (localStorage p !! "theme") as [t|]; [case_bool_decide|]; cbn [assign_theme].
  - destruct (H {| autoStart := autoStart p; theme := t; localStorage := localStorage p;
                   prefersDark := prefersDark p; themeListener := themeListener p;
                   trace := trace p |} (bool_decide (t ≠ theme p)))
      as (H1 & H2 & H3 & H4 & H5 & H6); try reflexivity.
    cbn [theme] in *. now split_and!.
  - destruct (H p false) as (H1 & H2 & H3 & H4 & H5 & H6); try reflexivity.
    rewrite bool_decide_eq_false_2 by (intros E; now apply E). now split_and!.
  - destruct (H p false) as (H1 & H2 & H3 & H4 & H5 & H6); try reflexivity.
    rewrite bool_decide_eq_false_2 by (intros E; now apply E). now split_and!.
Qed.

(** What the auto-start part of the mount hook leaves alone. *)
Lemma mount_autoStart_fields (reply : option bool) (ok : bool) (p : Panel) :
  let q := mount_autoStart reply ok p in
  theme q = theme p ∧ prefersDark q = prefersDark p ∧ themeListener q = true ∧
  localStorage q !! "theme" = localStorage p !! "theme" ∧
  data_theme (trace q) = data_theme (trace p).
Proof.
  unfold mount_autoStart, flush_autoStart, onAutoStartChange, setItem.
  destruct reply as [b|]; cbn [assign_autoStart]; [case_bool_decide; [destruct ok|]|];
    cbn [theme prefersDark themeListener localStorage trace emit add_theme_listener];
    rewrite ?lookup_insert_ne by discriminate; rewrite ?data_theme_snoc;
    now split_and!.
Qed.

Lemma toggle_fields (ok : bool) (p : Panel) :
  let q := toggle ok p in
  theme q = theme p ∧ prefersDark q = prefersDark p ∧ themeListener q = themeListener p ∧
  localStorage q !! "theme" = localStorage p !! "theme" ∧
  data_theme (trace q) = data_theme (trace p).
Proof.
  unfold toggle, flush_autoStart, onAutoStartChange, setItem. cbn [assign_autoStart].
  case_bool_decide; [destruct ok|];
    cbn [theme prefersDark themeListener localStorage trace emit];
    rewrite ?lookup_insert_ne by discriminate; rewrite ?data_theme_snoc;
    now split_and!.
Qed.

Lemma select_theme_fields (t : string) (p : Panel) :
  let q := select_theme t p in
  theme q = t ∧ prefersDark q = prefersDark p ∧ themeListener q = themeListener p ∧
  localStorage q =
    (if bool_decide (t ≠ theme p) then <["theme" := t]> (localStorage p) else localStorage p) ∧
  (data_theme (trace p) = Some (effective_theme p) →
   data_theme (trace q) = Some (effective_theme q)).
Proof.
  unfold select_theme. cbn [assign_theme].
  set (p' := {| autoStart := autoStart p; theme := t; localStorage := localStorage p;
                prefersDark := prefersDark p; themeListener := themeListener p;
                trace := trace p |}).
  destruct (flush_theme_fields (bool_decide (t ≠ theme p)) p') as (H1 & H2 & H3 & H4 & H5).
  rewrite H2, H3, H4, H5. split_and!; try reflexivity.
  intros K. case_bool_decide as E.
  - unfold flush_theme. apply data_theme_onThemeChange.
  - subst t. exact K.
Qed.

Lemma themed_step (p : Panel) (i : Input) : themed p → themed (step p i).
Proof.
  intros [Hl Hk]. unfold themed.
  destruct i as [reply ok | ok | t | dark]; cbn [step].
  - rewrite onMounted_split.
    destruct (mount_autoStart_fields reply ok (mount_theme p)) as (H1 & H2 & H3 & _ & H5).
    destruct (mount_theme_fields p) as (_ & _ & _ & _ & _ & G6).
    split; [exact H3|]. rewrite H5, G6. unfold effective_theme. now rewrite H1, H2.
  - destruct (toggle_fields ok p) as (H1 & H2 & H3 & _ & H5).
    split; [congruence|]. rewrite H5, Hk. unfold effective_theme. now rewrite H1, H2.
  - destruct (select_theme_fields t p) as (_ & _ & H3 & _ & H5).
    split; [congruence | now apply H5].
  - unfold system_theme_change. cbv zeta.
    set (q := {| autoStart := autoStart p; theme := theme p; localStorage := localStorage p;
                 prefersDark := dark; themeListener := themeListener p; trace := trace p |}).
    change (themeListener q) with (themeListener p). change (theme q) with (theme p).
    rewrite Hl. cbn [andb]. case_bool_decide as E.
    + rewrite <- E. change (theme p) with (theme q).
      destruct (applyTheme_fields (theme q) q) as (_ & K2 & _ & K4 & K5).
      split; [now rewrite K5|].
      rewrite data_theme_applyTheme. unfold effective_theme. now rewrite K2, K4.
    + split; [exact Hl|]. change (trace q) with (trace p). rewrite Hk.
      unfold effective_theme. change (theme q) with (theme p).
      now rewrite !bool_decide_eq_false_2 by exact E.
Qed.

Lemma system_theme_change_fields (dark : bool) (p : Panel) :
  let q := system_theme_change dark p in
  theme q = theme p ∧ autoStart q = autoStart p ∧ localStorage q = localStorage p.
Proof.
  unfold system_theme_change. cbv zeta.
  set (q := {| autoStart := autoStart p; theme := theme p; localStorage := localStorage p;
               prefersDark := dark; themeListener := themeListener p; trace := trace p |}).
  destruct (themeListener q && bool_decide (theme q = "auto")); [|now split_and!].
  destruct (applyTheme_fields "auto" q) as (K1 & K2 & K3 & _). now rewrite K1, K2, K3.
Qed.

Lemma persisted_mount (reply : option bool) (ok : bool) (p : Panel) :
  theme p = "auto" ∨ theme_persisted p → theme_persisted (onMounted reply ok p).
Proof.
  intros Hp. rewrite onMounted_split. unfold theme_persisted.
  destruct (mount_autoStart_fields reply ok (mount_theme p)) as (H1 & _ & _ & H4 & _).
  destruct (mount_theme_fields p) as (G1 & _ & _ & _ & G5 & _).
  rewrite H1, H4, G1, G5. unfold restored_theme, theme_persisted in *.
  destruct (localStorage p !! "theme") as [t|] eqn:E.
  - destruct (decide (t = "")) as [->|Ht].
    + rewrite (bool_decide_eq_false_2 ("" ≠ "")) by (intros F; now apply F).
      rewrite (bool_decide_eq_false_2 (theme p ≠ theme p)) by (intros F; now apply F).
      rewrite E. cbn. destruct Hp as [Hp|Hp]; [exact Hp | exact Hp].
    + rewrite (bool_decide_eq_true_2 (t ≠ "")) by exact Ht.
      destruct (decide (t = theme p)) as [Et|Et].
      * rewrite (bool_decide_eq_false_2 (t ≠ theme p)) by (intros F; now apply F).
        rewrite E. now rewrite bool_decide_eq_false_2 by exact Ht.
      * rewrite (bool_decide_eq_true_2 (t ≠ theme p)) by exact Et.
        rewrite lookup_insert_eq. now rewrite bool_decide_eq_false_2 by exact Ht.
  - rewrite (bool_decide_eq_false_2 (theme p ≠ theme p)) by (intros F; now apply F).
    rewrite E. destruct Hp as [Hp|Hp]; exact Hp.
Qed.

Lemma persisted_step (p : Panel) (i : Input) :
  from_template i → theme_persisted p → theme_persisted (step p i).
Proof.
  intros Hi Hp. destruct i as [reply ok | ok | t | dark]; cbn [step].
  - apply persisted_mount. now right.
  - destruct (toggle_fields ok p) as (H1 & _ & _ & H4 & _).
    unfold theme_persisted in *. now rewrite H1, H4.
  - destruct (select_theme_fields t p) as (H1 & _ & _ & H4 & _).
    unfold theme_persisted in *. rewrite H1, H4.
    assert (t ≠ "") as Ht by (cbn in Hi; destruct Hi as [->|[->| ->]]; discriminate).
    destruct (decide (t = theme p)) as [Et|Et].
    + rewrite (bool_decide_eq_false_2 (t ≠ theme p)) by (intros F; now apply F).
      subst t. exact Hp.
    + rewrite (bool_decide_eq_true_2 (t ≠ theme p)) by exact Et.
      rewrite lookup_insert_eq. now rewrite bool_decide_eq_false_2 by exact Ht.
  - destruct (system_theme_change_fields dark p) as (H1 & _ & H3).
    unfold theme_persisted in *. now rewrite H1, H3.
Qed.

(** The selected theme survives a restart of the newer panel: after any
    use of a mounted panel through its template, a fresh panel mounted on
    the [localStorage] it left behind selects the same theme. *)
Theorem theme_survives_restart (storage : gmap string string) (dark dark' : bool)
    (reply reply' : option bool) (ok ok' : bool) (inputs : list Input) :
  Forall from_template inputs →
  let p := run (Mount reply ok :: inputs) (initial storage dark) in
  theme (onMounted reply' ok' (initial (localStorage p) dark')) = theme p.
Proof.
  intros Hin p.
  assert (theme_persisted p) as Hp.
  { subst p. change (run (Mount reply ok :: inputs) (initial storage dark))
      with (run inputs (onMounted reply ok (initial storage dark))).
    assert (theme_persisted (onMounted reply ok (initial storage dark))) as H0
      by (apply persisted_mount; now left).
    revert H0. generalize (onMounted reply ok (initial storage dark)) as q.
    induction Hin as [|i inputs Hi Hin IH]; intros q Hq; [exact Hq|].
    apply IH. now apply persisted_step. }
  rewrite onMounted_split.
  destruct (mount_autoStart_fields reply' ok' (mount_theme (initial (localStorage p) dark')))
    as (H1 & _).
  destruct (mount_theme_fields (initial (localStorage p) dark')) as (G1 & _).
  rewrite H1, G1. unfold restored_theme, theme_persisted in *.
  cbn [localStorage theme initial].
  destruct (localStorage p !! "theme") as [t|]; [|now symmetry].
  destruct (decide (t = "")) as [->|Ht].
  - rewrite bool_decide_eq_true_2 in Hp by reflexivity.
    rewrite bool_decide_eq_false_2 by (intros F; now apply F). now symmetry.
  - rewrite bool_decide_eq_false_2 in Hp by exact Ht.
    rewrite bool_decide_eq_true_2 by exact Ht. now symmetry.
Qed.

Lemma theme_survives_restart_witness :
  let inputs := [SelectTheme "dark"; ToggleAutoStart true; SystemThemeChange true] in
  let p := run (Mount (Some false) true :: inputs) (initial ∅ false) in
  Forall from_template inputs ∧ theme p = "dark" ∧
  theme (onMounted None false (initial (localStorage p) true)) = "dark".
Proof.
  intros inputs p.
  assert (Forall from_template inputs) as Hin
    by (repeat constructor; cbn; auto).
  assert (theme p = "dark") as Hp by (vm_compute; reflexivity).
  split_and!; [exact Hin | exact Hp |].
  rewrite <- Hp.
  apply (theme_survives_restart ∅ false true (Some false) None true false inputs Hin).
Defined.

(** *** What is stored under "autoStart" *)

Lemma sim_emit (e : Effect) (p q : Panel) :
  same_but_autoStart p q → same_but_autoStart (emit e p) (emit e q).
Proof.
  intros (Ha & Ht & Hd & Hl & Htr & Hs). unfold same_but_autoStart, emit.
  cbn [autoStart theme localStorage prefersDark themeListener trace].
  rewrite Htr. now split_and!.
Qed.

Lemma sim_setItem (k v : string) (p q : Panel) :
  same_but_autoStart p q → same_but_autoStart (setItem k v p) (setItem k v q).
Proof.
  intros (Ha & Ht & Hd & Hl & Htr & Hs). unfold same_but_autoStart, setItem, emit.
  cbn [autoStart theme localStorage prefersDark themeListener trace].
  rewrite Htr. split_and!; try assumption; try reflexivity.
  intros k' Hk'. destruct (decide (k = k')) as [->|Hne].
  - now rewrite !lookup_insert_eq.
  - rewrite !lookup_insert_ne by exact Hne. now apply Hs.
Qed.

Lemma sim_applyTheme (t : string) (p q : Panel) :
  same_but_autoStart p q → same_but_autoStart (applyTheme t p) (applyTheme t q).
Proof.
  intros H. unfold applyTheme. destruct H as (Ha & Ht & Hd & Hl & Htr & Hs).
  rewrite Hd. case_bool_decide; apply sim_emit; now split_and!.
Qed.

Lemma sim_flush_theme (changed : bool) (p q : Panel) :
  same_but_autoStart p q →
  same_but_autoStart (flush_theme changed p) (flush_theme changed q).
Proof.
  intros H. destruct changed; [|exact H]. unfold flush_theme, onThemeChange.
  rewrite (proj1 (proj2 H)). now apply sim_setItem, sim_applyTheme.
Qed.

Lemma sim_flush_autoStart (changed ok : bool) (p q : Panel) :
  same_but_autoStart p q →
  same_but_autoStart (flush_autoStart changed ok p) (flush_autoStart changed ok q).
Proof.
  intros H. destruct changed; [|exact H]. unfold flush_autoStart, onAutoStartChange.
  rewrite (proj1 H). destruct ok; [apply sim_setItem|]; now repeat apply sim_emit.
Qed.

(** Writing a field other than [localStorage] and [trace] to the same value
    on both sides keeps the two panels related. *)
Lemma sim_fields (p q : Panel) (a : bool) (t : string) (d l : bool) :
  same_but_autoStart p q →
  same_but_autoStart
    {| autoStart := a; theme := t; localStorage := localStorage p; prefersDark := d;
       themeListener := l; trace := trace p |}
    {| autoStart := a; theme := t; localStorage := localStorage q; prefersDark := d;
       themeListener := l; trace := trace q |}.
Proof.
  intros (Ha & Ht & Hd & Hl & Htr & Hs). unfold same_but_autoStart.
  cbn [autoStart theme localStorage prefersDark themeListener trace]. now split_and!.
Qed.

Lemma sim_mount_theme (p q : Panel) :
  same_but_autoStart p q → same_but_autoStart (mount_theme p) (mount_theme q).
Proof.
  intros H. pose proof H as (Ha & Ht & Hd & Hl & Htr & Hs). unfold mount_theme.
  rewrite (Hs "theme") by discriminate.
  destruct (localStorage q !! "theme") as [t|]; [case_bool_decide|]; cbn [assign_theme].
  - rewrite Ht, Ha, Hd, Hl. cbn [theme].
    apply sim_flush_theme, sim_emit, sim_applyTheme. now apply sim_fields.
  - rewrite Ht. now apply (sim_flush_theme false), sim_emit, sim_applyTheme.
  - rewrite Ht. now apply (sim_flush_theme false), sim_emit, sim_applyTheme.
Qed.

Lemma sim_mount_autoStart (reply : option bool) (ok : bool) (p q : Panel) :
  same_but_autoStart p q →
  same_but_autoStart (mount_autoStart reply ok p) (mount_autoStart reply ok q).
Proof.
  intros H. pose proof H as (Ha & Ht & Hd & Hl & Htr & Hs). unfold mount_autoStart.
  destruct reply as [b|]; cbn [assign_autoStart].
  - rewrite Ha, Ht, Hd, Hl. apply sim_flush_autoStart. unfold add_theme_listener.
    cbn [autoStart theme localStorage prefersDark themeListener trace].
    now apply sim_fields.
  - apply (sim_flush_autoStart false). unfold add_theme_listener.
    pose proof (sim_emit (ConsoleError "Failed to get auto-start state:") p q H)
      as H'. pose proof H' as (Ha' & Ht' & Hd' & _).
    rewrite Ha', Ht', Hd'. now apply sim_fields.
Qed.

Lemma same_but_autoStart_step (p q : Panel) (i : Input) :
  same_but_autoStart p q → same_but_autoStart (step p i) (step q i).
Proof.
  intros H. pose proof H as (Ha & Ht & Hd & Hl & Htr & Hs).
  destruct i as [reply ok | ok | t | dark]; cbn [step].
  - rewrite !onMounted_split. now apply sim_mount_autoStart, sim_mount_theme.
  - unfold toggle. cbn [assign_autoStart]. rewrite Ha, Ht, Hd, Hl.
    apply sim_flush_autoStart. now apply sim_fields.
  - unfold select_theme. cbn [assign_theme]. rewrite Ha, Ht, Hd, Hl.
    apply sim_flush_theme. now apply sim_fields.
  - unfold system_theme_change. cbv zeta.
    cbn [autoStart theme localStorage prefersDark themeListener trace].
    rewrite Ha, Ht, Hl.
    destruct (themeListener q && bool_decide (theme q = "auto"));
      [apply sim_applyTheme|]; now apply sim_fields.
Qed.

(** The newer panel writes "autoStart" to [localStorage] but never reads
    it: whatever is stored under that key when the panel starts, the panel
    goes through the same states and produces the same effects. *)
Theorem stored_auto_start_is_never_read (storage : gmap string string) (v : string)
    (dark : bool) (inputs : list Input) :
  let p := run inputs (initial (<["autoStart" := v]> storage) dark) in
  let q := run inputs (initial (delete "autoStart" storage) dark) in
  trace p = trace q ∧ autoStart p = autoStart q ∧ theme p = theme q ∧
  ∀ k, k ≠ "autoStart" → localStorage p !! k = localStorage q !! k.
Proof.
  intros p q.
  assert (same_but_autoStart p q) as (Ha & Ht & _ & _ & Htr & Hs); [|now split_and!].
  subst p q.
  assert (same_but_autoStart (initial (<["autoStart" := v]> storage) dark)
            (initial (delete "autoStart" storage) dark)) as H0.
  { unfold same_but_autoStart, initial. cbn. split_and!; try reflexivity.
    intros k Hk. now rewrite lookup_insert_ne, lookup_delete_ne by congruence. }
  revert H0. generalize (initial (<["autoStart" := v]> storage) dark) as p.
  generalize (initial (delete "autoStart" storage) dark) as q.
  induction inputs as [|i inputs IH]; intros q p H; [exact H|].
  apply IH. now apply same_but_autoStart_step.
Qed.

Lemma stored_auto_start_is_never_read_witness :
  let inputs := [Mount (Some true) true; SelectTheme "dark"; ToggleAutoStart true] in
  let p := run inputs (initial (<["autoStart" := "false"]> ∅) false) in
  let q := run inputs (initial (delete "autoStart" ∅) false) in
  "theme" ≠ "autoStart" ∧ trace p = trace q ∧
  localStorage p !! "theme" = localStorage q !! "theme".
Proof.
  intros inputs p q.
  assert ("theme" ≠ "autoStart") as Hk by discriminate.
  destruct (stored_auto_start_is_never_read ∅ "false" false inputs) as (H1 & _ & _ & H4).
  split_and!; [exact Hk | exact H1 | exact (H4 "theme" Hk)].
Defined.

(** *** The panel of [src/App.vue] across a restart *)

Lemma legacy_flush_autoStart_fields (changed : bool) (p : Panel) :
  autoStart (LegacySettings.flush_autoStart changed p) = autoStart p ∧
  localStorage (LegacySettings.flush_autoStart changed p) =
    (if changed then <["autoStart" := String_of_bool (autoStart p)]> (localStorage p)
     else localStorage p).
Proof. destruct changed; split; reflexivity. Qed.

Lemma String_of_bool_true (b : bool) : bool_decide (String_of_bool b = "true") = b.
Proof. destruct b; reflexivity. Qed.

(** What the mount hook of [src/App.vue] does to the toggle and to the
    value stored for it. *)
Lemma legacy_mount_fields (p : Panel) :
  let q := LegacySettings.onMounted p in
  autoStart q =
    match localStorage p !! "autoStart" with
    | Some v => bool_decide (v = "true")
    | None => autoStart p
    end ∧
  localStorage q !! "autoStart" =
    match localStorage p !! "autoStart" with
    | Some v =>
        if bool_decide (bool_decide (v = "true") ≠ autoStart p)
        then Some (String_of_bool (bool_decide (v = "true"))) else Some v
    | None => None
    end.
Proof.
  assert (∀ p1 ch, autoStart p1 = autoStart p → localStorage p1 = localStorage p →
            let p2 := applyTheme (theme p1) p1 in
            let q :=
              let '(p3, changed) :=
                match localStorage p2 !! "autoStart" with
                | Some v => assign_autoStart (bool_decide (v = "true")) p2
                | None => (p2, false)
                end in
              LegacySettings.flush_autoStart changed
                (flush_theme ch (add_theme_listener p3)) in
            autoStart q =
              match localStorage p !! "autoStart" with
              | Some v => bool_decide (v = "true")
              | None => autoStart p
              end ∧
            localStorage q !! "autoStart" =
              match localStorage p !! "autoStart" with
              | Some v =>
                  if bool_decide (bool_decide (v = "true") ≠ autoStart p)
                  then Some (String_of_bool (bool_decide (v = "true"))) else Some v
              | None => None
              end) as H.
  { intros p1 ch Ea El p2 q. subst q.
    destruct (applyTheme_fields (theme p1) p1) as (G1 & _ & G3 & _). fold p2 in G1, G3.
    rewrite G3, El.
    destruct (localStorage p !! "autoStart") as [v|] eqn:E; cbn [assign_autoStart].
    - rewrite G1, Ea.
      set (p3 := add_theme_listener _).
      destruct (legacy_flush_autoStart_fields
                  (bool_decide (bool_decide (v = "true") ≠ autoStart p)) (flush_theme ch p3))
        as [H1 H2].
      destruct (flush_theme_fields ch p3) as (F1 & _ & _ & _ & F5).
      rewrite H1, H2, F1, F5. subst p3. cbn [autoStart localStorage add_theme_listener].
      rewrite G3, El. split; [reflexivity|].
      destruct (bool_decide (bool_decide (v = "true") ≠ autoStart p)).
      + now rewrite lookup_insert_eq.
      + destruct ch; [rewrite lookup_insert_ne by discriminate|]; exact E.
    - set (p3 := add_theme_listener _).
      destruct (legacy_flush_autoStart_fields false (flush_theme ch p3)) as [H1 H2].
      destruct (flush_theme_fields ch p3) as (F1 & _ & _ & _ & F5).
      rewrite H1, H2, F1, F5. subst p3. cbn [autoStart localStorage add_theme_listener].
      rewrite G1, G3, Ea, El. split; [reflexivity|].
      destruct ch; [rewrite lookup_insert_ne by discriminate|]; exact E. }
  intros q. subst q. unfold LegacySettings.onMounted.
  destruct (localStorage p !! "theme") as [t|]; [case_bool_decide|].
  - exact (H (assign_theme t p).1 (assign_theme t p).2 eq_refl eq_refl).
  - exact (H p false eq_refl eq_refl).
  - exact (H p false eq_refl eq_refl).
Qed.

Lemma legacy_persisted_mount (p : Panel) :
  autoStart p = false ∨ LegacySettings.autoStart_persisted p →
  LegacySettings.autoStart_persisted (LegacySettings.onMounted p).
Proof.
  intros Hp. destruct (legacy_mount_fields p) as [H1 H2].
  unfold LegacySettings.autoStart_persisted in *. rewrite H1, H2.
  destruct (localStorage p !! "autoStart") as [v|].
  - case_bool_decide; [now rewrite String_of_bool_true | reflexivity].
  - destruct Hp as [Hp|Hp]; exact Hp.
Qed.

Lemma legacy_persisted_step (p : Panel) (i : LegacySettings.Input) :
  LegacySettings.autoStart_persisted p →
  LegacySettings.autoStart_persisted (LegacySettings.step p i).
Proof.
  intros Hp. destruct i as [ | | t | dark]; cbn [LegacySettings.step].
  - apply legacy_persisted_mount. now right.
  - unfold LegacySettings.toggle. cbn [assign_autoStart].
    set (p' := {| autoStart := negb (autoStart p); theme := theme p;
                  localStorage := localStorage p; prefersDark := prefersDark p;
                  themeListener := themeListener p; trace := trace p |}).
    destruct (legacy_flush_autoStart_fields (bool_decide (negb (autoStart p) ≠ autoStart p)) p')
      as [H1 H2].
    unfold LegacySettings.autoStart_persisted. rewrite H1, H2.
    rewrite bool_decide_eq_true_2 by (destruct (autoStart p); discriminate).
    rewrite lookup_insert_eq. now rewrite String_of_bool_true.
  - unfold select_theme. cbn [assign_theme].
    set (p' := {| autoStart := autoStart p; theme := t; localStorage := localStorage p;
                  prefersDark := prefersDark p; themeListener := themeListener p;
                  trace := trace p |}).
    destruct (flush_theme_fields (bool_decide (t ≠ theme p)) p') as (H1 & _ & _ & _ & H5).
    unfold LegacySettings.autoStart_persisted in *. rewrite H1, H5.
    destruct (bool_decide (t ≠ theme p)); [rewrite lookup_insert_ne by discriminate|];
      exact Hp.
  - destruct (system_theme_change_fields dark p) as (_ & H2 & H3).
    unfold LegacySettings.autoStart_persisted in *. now rewrite H2, H3.
Qed.

(** In the panel of [src/App.vue] the toggle survives a restart through
    [localStorage]: after any use of a mounted panel, a fresh panel mounted
    on the storage it left behind shows the same auto-start value. *)
Theorem legacy_auto_start_survives_restart (storage : gmap string string)
    (dark dark' : bool) (inputs : list LegacySettings.Input) :
  let p := LegacySettings.run (LegacySettings.Mount :: inputs) (initial storage dark) in
  autoStart (LegacySettings.onMounted (initial (localStorage p) dark')) = autoStart p.
Proof.
  intros p.
  assert (LegacySettings.autoStart_persisted p) as Hp.
  { subst p.
    change (LegacySettings.run (LegacySettings.Mount :: inputs) (initial storage dark))
      with (LegacySettings.run inputs (LegacySettings.onMounted (initial storage dark))).
    assert (LegacySettings.autoStart_persisted (LegacySettings.onMounted (initial storage dark)))
      as H0 by (apply legacy_persisted_mount; now left).
    revert H0. generalize (LegacySettings.onMounted (initial storage dark)) as q.
    induction inputs as [|i inputs IH]; intros q Hq; [exact Hq|].
    apply IH. now apply legacy_persisted_step. }
  destruct (legacy_mount_fields (initial (localStorage p) dark')) as [H1 _].
  rewrite H1. cbn [localStorage autoStart initial].
  unfold LegacySettings.autoStart_persisted in Hp.
  destruct (localStorage p !! "autoStart"); now symmetry.
Qed.

End SettingsExtras.


(** * The mount hook of the settings panel and the system preference *)

Module SettingsMountExtras.
Import Settings SettingsExtras SettingsMount.

Lemma staged_initial (storage : gmap string string) (dark : bool) :
  staged (initial storage dark).
Proof. reflexivity. Qed.

Lemma system_theme_change_unheard (dark : bool) (p : Panel) :
  themeListener p = false →
  system_theme_change dark p =
  {| autoStart := autoStart p; theme := theme p; localStorage := localStorage p;
     prefersDark := dark; themeListener := themeListener p; trace := trace p |}.
Proof. intros H. unfold system_theme_change. cbv zeta. cbn [themeListener]. now rewrite H. Qed.

Lemma staged_step (w : World) (i : Input) :
  staged w → in_the_gap w i = false → staged (step w i).
Proof.
  destruct w as [p pc]. unfold staged. cbn [fst snd]. intros Hw Hgap.
  destruct i as [ | | reply ok | ok | t | dark]; cbn [step].
  - destruct pc; exact Hw.
  - destruct pc; try exact Hw. cbn [fst snd].
    destruct (mount_theme_fields p) as (_ & _ & _ & H4 & _ & H6).
    split; [now rewrite H4 | exact H6].
  - destruct pc; try exact Hw. cbn [fst snd]. destruct Hw as [_ Hk].
    destruct (mount_autoStart_fields reply ok p) as (H1 & H2 & H3 & _ & H5).
    split; [exact H3|]. rewrite H5, Hk. unfold effective_theme. now rewrite H1, H2.
  - destruct (toggle_fields ok p) as (H1 & H2 & H3 & _ & H5).
    destruct pc; cbn [fst snd]; try exact Hw.
    + now rewrite H3.
    + destruct Hw as [Hl Hk]. split; [now rewrite H3|].
      rewrite H5, Hk. unfold effective_theme. now rewrite H1, H2.
    + exact (themed_step p (Settings.ToggleAutoStart ok) Hw).
  - destruct (select_theme_fields t p) as (_ & _ & H3 & _ & H5).
    destruct pc; cbn [fst snd]; try exact Hw.
    + now rewrite H3.
    + destruct Hw as [Hl Hk]. split; [now rewrite H3 | now apply H5].
    + exact (themed_step p (Settings.SelectTheme t) Hw).
  - destruct pc; cbn [fst snd]; try discriminate Hgap.
    + rewrite system_theme_change_unheard by exact Hw. exact Hw.
    + rewrite system_theme_change_unheard by exact Hw. exact Hw.
    + exact (themed_step p (Settings.SystemThemeChange dark) Hw).
Qed.

Lemma staged_run (inputs : list Input) (w : World) :
  staged w → undisturbed inputs w = true → staged (run inputs w).
Proof.
  revert w. induction inputs as [|i inputs IH]; intros w Hw Hu; [exact Hw|].
  cbn [undisturbed] in Hu. apply andb_true_iff in Hu as [Hgap Hu].
  apply negb_true_iff in Hgap.
  apply IH; [now apply staged_step | exact Hu].
Qed.

(** Once the mount hook of the newer panel has finished, the document's
    [data-theme] attribute shows the selected theme, or the system's
    preference while "auto" is selected, through every toggle, theme
    choice and change of the system preference, before, during and after
    the hook, provided that the system preference did not change while the
    hook was waiting for [get_auto_start]. *)
Theorem data_theme_follows_selection (storage : gmap string string) (dark : bool)
    (inputs : list Input) :
  undisturbed inputs (initial storage dark) = true →
  let w := run inputs (initial storage dark) in
  w.2 = MountDone →
  themeListener w.1 = true ∧ data_theme (trace w.1) = Some (effective_theme w.1).
Proof.
  intros Hu w Hdone.
  pose proof (staged_run inputs _ (staged_initial storage dark) Hu) as Hs. fold w in Hs.
  unfold staged in Hs. rewrite Hdone in Hs. exact Hs.
Qed.

Lemma data_theme_follows_selection_witness :
  let inputs := [SystemThemeChange true; Mounted; SelectTheme "light"; VersionSettled;
                 ToggleAutoStart true; AutoStartSettled (Some false) true;
                 SelectTheme "auto"; SystemThemeChange false] in
  let w := run inputs (initial ∅ false) in
  undisturbed inputs (initial ∅ false) = true ∧ w.2 = MountDone ∧
  theme w.1 = "auto" ∧ data_theme (trace w.1) = Some "light".
Proof.
  intros inputs w.
  assert (undisturbed inputs (initial ∅ false) = true) as Hu by reflexivity.
  assert (w.2 = MountDone) as Hd by reflexivity.
  destruct (data_theme_follows_selection ∅ false inputs Hu Hd) as [_ H].
  split_and!; [exact Hu | exact Hd | reflexivity | exact H].
Defined.

Lemma toggles_keep_theme (oks : list bool) (p : Panel) (pc : MountPc) :
  let w := run (ToggleAutoStart <$> oks) (p, pc) in
  w.2 = pc ∧ theme w.1 = theme p ∧ prefersDark w.1 = prefersDark p ∧
  themeListener w.1 = themeListener p ∧ data_theme (trace w.1) = data_theme (trace p).
Proof.
  revert p. induction oks as [|ok oks IH]; intros p; [now split_and!|].
  cbn [fmap list_fmap run fold_left step].
  destruct pc.
  - apply IH.
  - destruct (IH (toggle ok p)) as (G1 & G2 & G3 & G4 & G5).
    destruct (toggle_fields ok p) as (H1 & H2 & H3 & _ & H5).
    cbn zeta. unfold run in *. rewrite G2, G3, G4, G5. now split_and!.
  - destruct (IH (toggle ok p)) as (G1 & G2 & G3 & G4 & G5).
    destruct (toggle_fields ok p) as (H1 & H2 & H3 & _ & H5).
    cbn zeta. unfold run in *. rewrite G2, G3, G4, G5. now split_and!.
  - destruct (IH (toggle ok p)) as (G1 & G2 & G3 & G4 & G5).
    destruct (toggle_fields ok p) as (H1 & H2 & H3 & _ & H5).
    cbn zeta. unfold run in *. rewrite G2, G3, G4, G5. now split_and!.
Qed.

(** A change of the system preference that arrives while the mount hook is
    waiting for [get_auto_start] is missed: the hook has applied the theme
    already and registers its listener only after the reply.  With "auto"
    selected, the hook then finishes with the listener registered and the
    [data-theme] attribute still showing the old preference, and toggling
    the checkbox does not repair it. *)
Theorem preference_change_during_mount_is_missed (storage : gmap string string)
    (dark dark' : bool) (inputs : list Input) (reply : option bool) (ok : bool)
    (oks : list bool) :
  undisturbed inputs (initial storage dark) = true →
  let w := run inputs (initial storage dark) in
  w.2 = AwaitGetAutoStart → theme w.1 = "auto" → dark' ≠ prefersDark w.1 →
  let w' := run (SystemThemeChange dark' :: AutoStartSettled reply ok ::
                 (ToggleAutoStart <$> oks)) w in
  w'.2 = MountDone ∧ themeListener w'.1 = true ∧
  effective_theme w'.1 = (if dark' then "dark" else "light") ∧
  data_theme (trace w'.1) = Some (if prefersDark w.1 then "dark" else "light") ∧
  data_theme (trace w'.1) ≠ Some (effective_theme w'.1).
Proof.
  intros Hu w Hpc Hauto Hne w'.
  pose proof (staged_run inputs _ (staged_initial storage dark) Hu) as Hs. fold w in Hs.
  unfold staged in Hs. rewrite Hpc in Hs. destruct Hs as [Hl Hk].
  destruct w as [p pc]. cbn [fst snd] in *. subst pc.
  subst w'. cbn [run fold_left step]. rewrite system_theme_change_unheard by exact Hl.
  set (q := {| autoStart := autoStart p; theme := theme p; localStorage := localStorage p;
               prefersDark := dark'; themeListener := themeListener p; trace := trace p |}).
  destruct (mount_autoStart_fields reply ok q) as (H1 & H2 & H3 & _ & H5).
  destruct (toggles_keep_theme oks (mount_autoStart reply ok q) MountDone)
    as (G1 & G2 & G3 & G4 & G5).
  unfold run in *.
  assert (effective_theme (fold_left step (ToggleAutoStart <$> oks)
                             (mount_autoStart reply ok q, MountDone)).1
          = (if dark' then "dark" else "light")) as He.
  { unfold effective_theme. rewrite G2, G3, H1, H2. cbn [theme prefersDark q].
    now rewrite Hauto. }
  assert (data_theme (trace (fold_left step (ToggleAutoStart <$> oks)
                               (mount_autoStart reply ok q, MountDone)).1)
          = Some (if prefersDark p then "dark" else "light")) as Hd.
  { rewrite G5, H5. cbn [trace q]. rewrite Hk. unfold effective_theme. now rewrite Hauto. }
  split_and!; [exact G1 | now rewrite G4 | exact He | exact Hd |].
  rewrite Hd, He. intros [= E]. apply Hne.
  destruct dark', (prefersDark p); try reflexivity; discriminate E.
Qed.

Lemma preference_change_during_mount_is_missed_witness :
  let inputs := [Mounted; VersionSettled] in
  let w := run inputs (initial ∅ false) in
  let w' := run [SystemThemeChange true; AutoStartSettled (Some false) true;
                 ToggleAutoStart true] w in
  undisturbed inputs (initial ∅ false) = true ∧
  w.2 = AwaitGetAutoStart ∧ theme w.1 = "auto" ∧ true ≠ prefersDark w.1 ∧
  themeListener w'.1 = true ∧ effective_theme w'.1 = "dark" ∧
  data_theme (trace w'.1) = Some "light".
Proof.
  intros inputs w w'.
  assert (undisturbed inputs (initial ∅ false) = true) as Hu by reflexivity.
  assert (w.2 = AwaitGetAutoStart) as Hpc by reflexivity.
  assert (theme w.1 = "auto") as Ha by reflexivity.
  assert (true ≠ prefersDark w.1) as Hne by discriminate.
  destruct (preference_change_during_mount_is_missed ∅ false true inputs (Some false) true
              [true] Hu Hpc Ha Hne) as (_ & H2 & H3 & H4 & _).
  split_and!; [exact Hu | exact Hpc | exact Ha | exact Hne | exact H2 | exact H3 | exact H4].
Defined.

End SettingsMountExtras.


(** * Properties of the update controls *)

Module UpdaterExtras.
Import Updater.

Ltac updater_cases :=
  repeat match goal with
         | |- context [match ?x with _ => _ end] => destruct x eqn:?; cbn in *
         end.

Ltac updater_unfold :=
  unfold onMounted, version_settled, auto_start_settled, onUnmounted, interval_fired,
    check_button, download_button, checkForUpdates, downloadAndInstall, check_settled,
    download_event, download_settled, onDownloadEvent, setInterval in *.

(** The functions that check and download leave the lifecycle and the
    interval alone. *)
Lemma updater_frame_checkForUpdates (w : World) :
  let w' := checkForUpdates w in
  pc w'.1 = pc w.1 ∧ updateCheckInterval w'.1 = updateCheckInterval w.1 ∧
  intervals w'.2 = intervals w.2 ∧ nextHandle w'.2 = nextHandle w.2 ∧
  rendered w'.2 = rendered w.2.
Proof. destruct w as [c r]. cbn. now split_and!. Qed.

Lemma updater_frame_update (w : World) (i : Input) :
  match i with
  | ClickCheck | ClickDownload | CheckSettled _ | Download _ | DownloadSettled _
  | IntervalFired _ => True
  | _ => False
  end →
  let w' := step w i in
  pc w'.1 = pc w.1 ∧ updateCheckInterval w'.1 = updateCheckInterval w.1 ∧
  intervals w'.2 = intervals w.2 ∧ nextHandle w'.2 = nextHandle w.2 ∧
  rendered w'.2 = rendered w.2.
Proof.
  destruct w as [c r].
  destruct i as [ | v | | | h | | | [m|[u|]] | e | [m|]]; intros Hi; try contradiction;
    cbn; updater_unfold; cbn; updater_cases; now split_and!.
Qed.

Lemma updater_scheduled_frame (w w' : World) :
  pc w'.1 = pc w.1 ∧ updateCheckInterval w'.1 = updateCheckInterval w.1 ∧
  intervals w'.2 = intervals w.2 ∧ nextHandle w'.2 = nextHandle w.2 ∧
  rendered w'.2 = rendered w.2 →
  scheduled w → scheduled w'.
Proof.
  unfold scheduled. intros (-> & -> & -> & -> & ->). trivial.
Qed.

Lemma updater_scheduled_initial : scheduled initial.
Proof.
  unfold scheduled. cbn. split_and!; [lia | done | done | discriminate].
Qed.

Lemma updater_scheduled_step (w : World) (i : Input) :
  scheduled w → scheduled (step w i).
Proof.
  intros Hs.
  destruct i as [ | v | | | h | | | res | e | f];
    try (apply (updater_scheduled_frame w); [now apply updater_frame_update | exact Hs]).
  - destruct w as [c r]. destruct Hs as (H0 & H1 & H2 & H3).
    cbn [step]. unfold onMounted, scheduled in *. cbn [fst snd] in *.
    destruct (pc c) eqn:E; [|cbn [fst snd]; rewrite ?E; now split_and!..].
    cbn. split_and!; [exact H0 | discriminate | intros _; now apply H2 | discriminate].
  - destruct w as [c r]. destruct Hs as (H0 & H1 & H2 & H3).
    cbn [step]. unfold version_settled, scheduled in *. cbn [fst snd] in *.
    destruct (pc c) eqn:E; [cbn [fst snd]; rewrite ?E; now split_and!| |cbn [fst snd]; rewrite ?E; now split_and!..].
    cbn. split_and!; [exact H0 | discriminate | intros _; now apply H2 | discriminate].
  - destruct w as [c r]. destruct Hs as (H0 & H1 & H2 & H3).
    cbn [step]. unfold auto_start_settled, scheduled in *. cbn [fst snd] in *.
    destruct (pc c) eqn:E; [cbn [fst snd]; rewrite ?E; now split_and!..| |cbn [fst snd]; rewrite ?E; now split_and!].
    cbn. destruct H2 as [H2 _]; [discriminate|]. rewrite H2.
    split_and!; [lia | discriminate | congruence |].
    intros _. exists (nextHandle r). split_and!; [lia | reflexivity | now left].
  - destruct w as [c r]. destruct Hs as (H0 & H1 & H2 & H3).
    cbn [step]. unfold onUnmounted, scheduled in *. cbn [fst snd] in *.
    destruct (rendered r) eqn:Er; [|cbn [fst snd]; rewrite ?Er; now split_and!].
    destruct (decide (pc c = MountDone)) as [Hd|Hd].
    + destruct (H3 Hd) as (h & Hh & Hu & Hi). rewrite Hu. cbn [truthy].
      destruct h as [|h]; [congruence|]. cbn.
      split_and!; [exact H0 | congruence | congruence |].
      intros _. exists (S h). split_and!; [exact Hh | exact Hu |].
      right. split; [|reflexivity].
      destruct Hi as [-> | [-> _]]; [|reflexivity].
      rewrite filter_cons_False by (intros Hne; now apply Hne). reflexivity.
    + destruct (H2 Hd) as [Hi Hu]. rewrite Hu. cbn.
      split_and!; [exact H0 | reflexivity | intros _; now split | congruence].
Qed.

Lemma updater_scheduled_run (inputs : list Input) (w : World) :
  scheduled w → scheduled (run inputs w).
Proof.
  revert w. induction inputs as [|i inputs IH]; intros w H; [exact H|].
  apply IH. now apply updater_scheduled_step.
Qed.

Lemma updater_offer_step (w : World) (i : Input) :
  offer_has_update w → offer_has_update (step w i).
Proof.
  unfold offer_has_update. destruct w as [c r]. intros H.
  destruct i as [ | v | | | h | | | [m|[u|]] | e | [m|]]; cbn in *;
    updater_unfold; cbn in *;
    updater_cases; cbn in *; try congruence; try (intros _; eauto; fail);
    try (rewrite ?Heqo; exact H).
Qed.

Lemma updater_offer_run (inputs : list Input) (w : World) :
  offer_has_update w → offer_has_update (run inputs w).
Proof.
  revert w. induction inputs as [|i inputs IH]; intros w H; [exact H|].
  apply IH. now apply updater_offer_step.
Qed.

Lemma updater_offer_initial : offer_has_update initial.
Proof. intros H. discriminate H. Qed.

Lemma updater_run_app (l1 l2 : list Input) (w : World) :
  run (l1 ++ l2) w = run l2 (run l1 w).
Proof. unfold run. apply fold_left_app. Qed.

(** Whenever the button "Download & Install" is shown the panel holds an
    update, whatever the order in which checks, periodic checks and
    downloads overlapped before: a click on the button never takes the early
    return of [downloadAndInstall], it starts a download and resets the
    progress. *)
Theorem offered_update_can_be_installed (inputs : list Input) :
  let w := run inputs initial in
  download_button w = true →
  is_Some (availableUpdate w.1) ∧
  let w' := step w ClickDownload in
  updateStatus w'.1 = downloading ∧ downloadProgress w'.1 = 0 ∧
  downloads w'.2 = S (downloads w.2).
Proof.
  intros w Hb.
  pose proof (updater_offer_run inputs initial updater_offer_initial) as Ho. fold w in Ho.
  assert (updateStatus w.1 = available) as Hs.
  { unfold download_button in Hb. apply andb_true_iff in Hb as [_ Hb].
    now apply bool_decide_eq_true_1 in Hb. }
  destruct (Ho Hs) as [u Hu]. split; [now exists u|].
  cbn [step]. rewrite Hb. destruct w as [c r]. cbn [fst snd] in *.
  unfold downloadAndInstall. rewrite Hu. cbn. now split_and!.
Qed.

Lemma offered_update_can_be_installed_witness :
  let w := run [Mounted; VersionSettled (Some "1.2.0"); AutoStartSettled;
                CheckSettled (inr (Some {| version := "1.3.0" |}))] initial in
  download_button w = true ∧
  availableUpdate w.1 = Some {| version := "1.3.0" |} ∧
  updateStatus (step w ClickDownload).1 = downloading.
Proof.
  intros w.
  assert (download_button w = true) as Hb by reflexivity.
  destruct (offered_update_can_be_installed
              [Mounted; VersionSettled (Some "1.2.0"); AutoStartSettled;
               CheckSettled (inr (Some {| version := "1.3.0" |}))] Hb) as (_ & H & _).
  split_and!; [exact Hb | reflexivity | exact H].
Defined.

Lemma updater_stopped_step (w : World) (i : Input) :
  stopped w → stopped (step w i) ∧ checked (step w i).2 = checked w.2.
Proof.
  unfold stopped. destruct w as [c r]. cbn [fst snd]. intros (Hp & Hr & Hi).
  destruct i as [ | v | | | h | | | [m|[u|]] | e | [m|]]; cbn [step];
    updater_unfold; cbn [fst snd]; rewrite ?Hp, ?Hr, ?Hi; cbn [andb];
    try (now split_and!).
  - destruct (checks r); now split_and!.
  - destruct (checks r); now split_and!.
  - destruct (checks r); now split_and!.
  - destruct (downloads r); [now split_and!|].
    destruct e as [[z|]| z | ]; [case_bool_decide| | |]; now split_and!.
  - destruct (downloads r); now split_and!.
  - destruct (downloads r); now split_and!.
Qed.

(** Once the mount hook has finished, unmounting the panel stops the
    periodic check for good: the interval is cleared, and nothing that
    happens afterwards (a late reply, a stale interval handle, a click)
    calls [check()] again. *)
Theorem unmount_stops_periodic_checks (inputs later : list Input) :
  let w := run inputs initial in
  pc w.1 = MountDone → rendered w.2 = true →
  let w' := run later (step w Unmounted) in
  intervals w'.2 = [] ∧ checked w'.2 = checked w.2.
Proof.
  intros w Hpc Hr w'.
  pose proof (updater_scheduled_run inputs initial updater_scheduled_initial) as Hs.
  fold w in Hs. destruct Hs as (_ & _ & _ & H3). destruct (H3 Hpc) as (h & Hh & Hu & Hi).
  assert (stopped (step w Unmounted) ∧ checked (step w Unmounted).2 = checked w.2)
    as [Hst Hc].
  { destruct w as [c r]. cbn [step fst snd] in *. unfold onUnmounted, stopped.
    rewrite Hr, Hu. destruct h as [|h]; [congruence|]. cbn.
    split_and!; try done.
    destruct Hi as [-> | [-> _]]; [|reflexivity].
    rewrite filter_cons_False by (intros Hne; now apply Hne). reflexivity. }
  subst w'. rewrite <- Hc. revert Hst. generalize (step w Unmounted) as u.
  induction later as [|i later IH]; intros u Hu'.
  - split; [apply Hu' | reflexivity].
  - destruct (updater_stopped_step u i Hu') as [H1 H2].
    cbn [run fold_left]. destruct (IH _ H1) as [G1 G2]. split; [exact G1|].
    unfold run in G2. now rewrite G2.
Qed.

Lemma unmount_stops_periodic_checks_witness :
  let w := run [Mounted; VersionSettled None; AutoStartSettled] initial in
  let w' := run [IntervalFired 1; ClickCheck] (step w Unmounted) in
  pc w.1 = MountDone ∧ rendered w.2 = true ∧ intervals w.2 = [1%nat] ∧
  intervals w'.2 = [] ∧ checked w'.2 = 1%nat.
Proof.
  intros w w'.
  destruct (unmount_stops_periodic_checks [Mounted; VersionSettled None; AutoStartSettled]
              [IntervalFired 1; ClickCheck] eq_refl eq_refl) as [H1 H2].
  split_and!; [reflexivity | reflexivity | reflexivity | exact H1 | exact H2].
Defined.

Lemma updater_leaked_step (h : nat) (w : World) (i : Input) :
  leaked h w → leaked h (step w i).
Proof.
  unfold leaked. intros (Hp & Hr & Hi).
  destruct i as [ | v | | | k | | | res | e | f];
    try (match goal with
         | |- context [step w ?i] =>
             destruct (updater_frame_update w i I) as (-> & _ & -> & _ & ->)
         end; now split_and!);
    destruct w as [c r]; cbn [step fst snd] in *;
    updater_unfold; rewrite ?Hp, ?Hr; cbn [fst snd]; now split_and!.
Qed.

Lemma updater_leaked_run (h : nat) (inputs : list Input) (w : World) :
  leaked h w → leaked h (run inputs w).
Proof.
  revert w. induction inputs as [|i inputs IH]; intros w H; [exact H|].
  apply IH. now apply updater_leaked_step.
Qed.

(** An unmount that comes while the mount hook is still waiting for
    [getVersion] or [get_auto_start] does not stop the hook: [onUnmounted]
    finds no interval to clear, and when the pending calls settle the hook
    installs the interval on the unmounted panel.  Nothing clears it
    afterwards, and each time it fires it calls [check()]. *)
Theorem unmount_during_mount_leaves_interval (inputs later : list Input)
    (v : option string) :
  let w := run inputs initial in
  pc w.1 = AwaitGetVersion ∨ pc w.1 = AwaitGetAutoStart →
  let w' := run [Unmounted; VersionSettled v; AutoStartSettled] w in
  ∃ h, updateCheckInterval w'.1 = Some h ∧ rendered w'.2 = false ∧
       let w'' := run later w' in
       h ∈ intervals w''.2 ∧
       checked (step w'' (IntervalFired h)).2 = S (checked w''.2).
Proof.
  intros w Hpc w'.
  pose proof (updater_scheduled_run inputs initial updater_scheduled_initial) as Hs.
  fold w in Hs. destruct Hs as (_ & _ & H2 & _).
  destruct H2 as [Hi Hu]; [destruct Hpc as [-> | ->]; discriminate|].
  assert (∃ h, updateCheckInterval w'.1 = Some h ∧ leaked h w') as (h & Hh & Hl).
  { subst w'. destruct w as [c r]. cbn [run fold_left step fst snd] in *.
    exists (nextHandle r). unfold onUnmounted, leaked. rewrite Hu.
    destruct (rendered r) eqn:Er; destruct Hpc as [Hpc | Hpc];
      unfold version_settled, auto_start_settled; cbn;
      repeat (rewrite ?Hpc, ?Hi, ?Er; cbn);
      (split_and!; [reflexivity | reflexivity | reflexivity | apply list_elem_of_here]). }
  exists h. split_and!; [exact Hh | apply Hl |].
  intros w''. pose proof (updater_leaked_run h later w' Hl) as (_ & _ & Hin). fold w'' in Hin.
  split; [exact Hin|]. cbn [step]. unfold interval_fired.
  rewrite bool_decide_eq_true_2 by exact Hin. now destruct w''.
Qed.

Lemma unmount_during_mount_leaves_interval_witness :
  let w := run [Mounted] initial in
  let w' := run [Unmounted; VersionSettled (Some "1.2.0"); AutoStartSettled] w in
  (pc w.1 = AwaitGetVersion ∨ pc w.1 = AwaitGetAutoStart) ∧
  ∃ h, updateCheckInterval w'.1 = Some h ∧ rendered w'.2 = false ∧
       h ∈ intervals (run [Unmounted; ClickCheck] w').2.
Proof.
  intros w w'.
  assert (pc w.1 = AwaitGetVersion ∨ pc w.1 = AwaitGetAutoStart) as Hpc
    by (left; reflexivity).
  destruct (unmount_during_mount_leaves_interval [Mounted] [Unmounted; ClickCheck]
              (Some "1.2.0") Hpc) as (h & H1 & H2 & H3 & _).
  split; [exact Hpc|]. exists h. split_and!; [exact H1 | exact H2 | exact H3].
Defined.

Lemma updater_downloading_step (w : World) (i : Input) :
  updateStatus w.1 = downloading → checks_or_fails i = false →
  updateStatus (step w i).1 = downloading.
Proof.
  destruct w as [c r]. cbn [fst]. intros Hs Hi.
  destruct i as [ | v | | | h | | | res | e | [m|]]; try discriminate Hi; cbn [step];
    updater_unfold; cbn [fst snd]; rewrite ?Hs.
  - now destruct (pc c).
  - now destruct (pc c).
  - destruct (rendered r); [|exact Hs].
    destruct (updateCheckInterval c) as [h|]; [destruct (truthy (Some h))|]; exact Hs.
  - rewrite !bool_decide_eq_false_2 by discriminate. now rewrite andb_false_r.
  - rewrite !bool_decide_eq_false_2 by discriminate. now rewrite andb_false_r.
  - destruct (downloads r); [exact Hs|]. cbn [fst].
    destruct e as [[z|]| z | ]; [case_bool_decide| | |]; exact Hs.
  - destruct (downloads r); exact Hs.
Qed.

(** A download leaves the state "downloading" only through a check or a
    failure.  In particular a download that finishes and resolves leaves the
    panel showing "Downloading..." with neither button: the progress
    events, the resolved promise, the lifecycle hooks and clicks do not
    change the status. *)
Theorem download_ends_only_by_check_or_failure (w : World) (inputs : list Input) :
  updateStatus w.1 = downloading →
  Forall (λ i, checks_or_fails i = false) inputs →
  let w' := run inputs w in
  updateStatus w'.1 = downloading ∧ check_button w' = false ∧ download_button w' = false.
Proof.
  intros Hs Hin w'.
  assert (updateStatus w'.1 = downloading) as H.
  { subst w'. revert w Hs. induction Hin as [|i inputs Hi _ IH]; intros w Hs; [exact Hs|].
    apply IH. now apply updater_downloading_step. }
  unfold check_button, download_button. rewrite H.
  rewrite !bool_decide_eq_false_2 by discriminate. now rewrite !andb_false_r.
Qed.

Lemma download_ends_only_by_check_or_failure_witness :
  let w := run [Mounted; VersionSettled None; AutoStartSettled;
                CheckSettled (inr (Some {| version := "1.3.0" |})); ClickDownload] initial in
  let w' := run [Download (Started (Some 10)); Download (Progress 10); Download Finished;
                 DownloadSettled None; ClickCheck; ClickDownload] w in
  updateStatus w.1 = downloading ∧ downloads w'.2 = 0%nat ∧
  updateStatus w'.1 = downloading ∧ check_button w' = false ∧ download_button w' = false.
Proof.
  intros w w'.
  assert (updateStatus w.1 = downloading) as Hs by reflexivity.
  assert (Forall (λ i, checks_or_fails i = false)
            [Download (Started (Some 10)); Download (Progress 10); Download Finished;
             DownloadSettled None; ClickCheck; ClickDownload]) as Hin
    by (repeat constructor).
  destruct (download_ends_only_by_check_or_failure w _ Hs Hin) as (H1 & H2 & H3).
  split_and!; [exact Hs | reflexivity | exact H1 | exact H2 | exact H3].
Defined.

Lemma updater_progress_run (chunks : list Z) (c : Component) (r : Runtime) :
  downloads r ≠ 0%nat →
  run (Download ∘ Progress <$> chunks) (c, r) =
    (set_downloadProgress (downloadProgress c + total chunks) c, r).
Proof.
  intros Hd. revert c. induction chunks as [|k chunks IH]; intros c.
  - cbn. rewrite Z.add_0_r. now destruct c.
  - cbn [fmap list_fmap run fold_left compose step]. unfold download_event.
    destruct (downloads r) eqn:E; [congruence|].
    cbn [onDownloadEvent]. fold (run (Download ∘ Progress <$> chunks)).
    change (list_fmap Z Input (Download ∘ Progress) chunks)
      with (Download ∘ Progress <$> chunks).
    rewrite IH. cbn [total foldr]. fold (total chunks).
    unfold set_downloadProgress. cbn. f_equal. f_equal. lia.
Qed.

(** During a download [downloadProgress] counts the bytes received, not a
    percentage: after the click and the chunks reported so far it is the sum
    of their lengths, whatever length [Started] announced, and the event
    [Finished] sets it to 100 whatever was received.  Byte counts are
    non-negative integers; their sum is exact as a Number up to
    [Number.MAX_SAFE_INTEGER]. *)
Theorem download_progress_counts_bytes (inputs : list Input) (len : option Z)
    (chunks : list Z) :
  let w := run inputs initial in
  download_button w = true →
  Forall (λ k, 0 ≤ k) chunks → total chunks ≤ Js.MAX_SAFE_INTEGER →
  let w' := run (ClickDownload :: Download (Started len) :: (Download ∘ Progress <$> chunks)) w in
  updateStatus w'.1 = downloading ∧ downloadProgress w'.1 = total chunks ∧
  downloadProgress (step w' (Download Finished)).1 = 100.
Proof.
  intros w Hb _ _ w'.
  pose proof (updater_offer_run inputs initial updater_offer_initial) as Ho. fold w in Ho.
  assert (updateStatus w.1 = available) as Hs.
  { unfold download_button in Hb. apply andb_true_iff in Hb as [_ Hb].
    now apply bool_decide_eq_true_1 in Hb. }
  destruct (Ho Hs) as [u Hu].
  assert (∃ c r, w' = (c, r) ∧ updateStatus c = downloading ∧
                 downloadProgress c = total chunks ∧ downloads r ≠ 0%nat)
    as (c' & r' & -> & H1 & H2 & H3).
  { subst w'. cbn [run fold_left step]. rewrite Hb. destruct w as [c r].
    cbn [fst snd] in *. unfold downloadAndInstall. rewrite Hu.
    unfold download_event. cbn [downloads start_download].
    fold (run (Download ∘ Progress <$> chunks)).
    assert (∃ c1, onDownloadEvent (Started len)
                    (set_downloadProgress 0 (set_updateStatus downloading c)) = c1 ∧
                  updateStatus c1 = downloading ∧ downloadProgress c1 = 0)
      as (c1 & -> & G1 & G2).
    { destruct len as [n|]; cbn; [case_bool_decide|]; eexists; now split_and!. }
    rewrite updater_progress_run by (cbn; lia).
    eexists _, _. split; [reflexivity|]. cbn. rewrite G2. split_and!; [exact G1 | lia | lia]. }
  cbn [fst]. split_and!; [exact H1 | exact H2 |].
  cbn [step]. unfold download_event. destruct (downloads r') eqn:E; [congruence|]. reflexivity.
Qed.

Lemma download_progress_counts_bytes_witness :
  let w := run [Mounted; VersionSettled None; AutoStartSettled;
                CheckSettled (inr (Some {| version := "1.3.0" |}))] initial in
  let w' := run [ClickDownload; Download (Started (Some 5000)); Download (Progress 300);
                 Download (Progress 200)] w in
  download_button w = true ∧ downloadProgress w'.1 = 500 ∧
  downloadProgress (step w' (Download Finished)).1 = 100.
Proof.
  intros w w'.
  assert (download_button w = true) as Hb by reflexivity.
  assert (Forall (λ k, 0 ≤ k) [300; 200]) as Hk by (repeat constructor; lia).
  assert (total [300; 200] ≤ Js.MAX_SAFE_INTEGER) as Hm by (vm_compute; discriminate).
  destruct (download_progress_counts_bytes
              [Mounted; VersionSettled None; AutoStartSettled;
               CheckSettled (inr (Some {| version := "1.3.0" |}))]
              (Some 5000) [300; 200] Hb Hk Hm) as (_ & H1 & H2).
  split_and!; [exact Hb | exact H1 | exact H2].
Defined.

Lemma updater_pending_step (w : World) (i : Input) :
  check_pending w → check_pending (step w i).
Proof.
  unfold check_pending. destruct w as [c r]. cbn [fst snd]. intros H.
  destruct i as [ | v | | | h | | | [m|[u|]] | e | [m|]]; cbn [step];
    updater_unfold; cbn [fst snd].
  - now destruct (pc c).
  - now destruct (pc c).
  - destruct (pc c); try exact H. cbn. intros _. lia.
  - destruct (rendered r); [|exact H].
    destruct (updateCheckInterval c) as [h|]; [destruct (truthy (Some h))|]; exact H.
  - destruct (bool_decide _); [cbn; intros _; lia | exact H].
  - destruct (_ && _); [cbn; intros _; lia | exact H].
  - destruct (_ && _); [|exact H]. destruct (availableUpdate c); [cbn; discriminate | exact H].
  - destruct (checks r) eqn:E; [cbn [fst snd]; rewrite E; exact H | cbn; discriminate].
  - destruct (checks r) eqn:E; [cbn [fst snd]; rewrite E; exact H | cbn; discriminate].
  - destruct (checks r) eqn:E; [cbn [fst snd]; rewrite E; exact H | cbn; discriminate].
  - destruct (downloads r); [exact H|]. cbn [fst snd].
    destruct e as [[z|]| z | ]; [case_bool_decide| | |]; exact H.
  - destruct (downloads r); [exact H | cbn; discriminate].
  - destruct (downloads r); exact H.
Qed.

Lemma updater_pending_run (inputs : list Input) (w : World) :
  check_pending w → check_pending (run inputs w).
Proof.
  revert w. induction inputs as [|i inputs IH]; intros w H; [exact H|].
  apply IH. now apply updater_pending_step.
Qed.

(** The panel shows "Checking..." only while a [check()] is pending, however
    checks started by the mount hook, the interval and the button overlap
    with each other and with downloads; and whichever pending check settles
    next, with whatever result, ends that state. *)
Theorem checking_ends_when_a_check_settles (inputs : list Input)
    (result : string + option Update) :
  let w := run inputs initial in
  updateStatus w.1 = checking →
  checks w.2 ≠ 0%nat ∧ updateStatus (step w (CheckSettled result)).1 ≠ checking.
Proof.
  intros w Hs.
  assert (check_pending initial) as H0 by (intros H; discriminate H).
  pose proof (updater_pending_run inputs initial H0 Hs) as Hc. fold w in Hc.
  split; [exact Hc|]. destruct w as [c r]. cbn [step fst snd] in *.
  unfold check_settled. destruct (checks r); [congruence|].
  destruct result as [m|[u|]]; cbn; discriminate.
Qed.

Lemma checking_ends_when_a_check_settles_witness :
  let w := run [Mounted; VersionSettled None; AutoStartSettled; IntervalFired 1] initial in
  updateStatus w.1 = checking ∧ checks w.2 = 2%nat ∧
  updateStatus (step w (CheckSettled (inr None))).1 ≠ checking.
Proof.
  intros w.
  assert (updateStatus w.1 = checking) as Hs by reflexivity.
  destruct (checking_ends_when_a_check_settles
              [Mounted; VersionSettled None; AutoStartSettled; IntervalFired 1]
              (inr None) Hs) as [_ H].
  split_and!; [exact Hs | reflexivity | exact H].
Defined.

End UpdaterExtras.
